(** * Proposal authorization protocol of the vault sentinel

    A shallow embedding of the on-chain contracts [PolicyManager], [AuditLog],
    [Vault] and [Executor] (Solidity ^0.8.19) and of the off-chain agent
    [Signer] (TypeScript, ethers v5), followed by theorems about replay
    protection, the emergency pause, deadline windows, policy caps and the
    two proposal encodings.

    Conventions.
    - [uint256], [uint8], [bytes32] and [address] values are integers in [Z];
      Solidity 0.8 checked arithmetic is written out ([checked_add],
      [checked_mul], [checked_div]) and aborts with [Panic].
    - [bytes] values are [list byte].
    - A Solidity [mapping] is a [gmap] read with the type's zero value as
      default.
    - A call either returns or reverts; a reverted transaction leaves the
      storage of every contract as it was ([transact]).
    - Events are not modelled. *)

From Stdlib Require Import ZArith List Lia Bool.
From Stdlib Require Import Strings.String Strings.Byte.
From stdpp Require Import gmap strings list.

Local Open Scope Z_scope.

(** ** Bytes and big-endian words *)

Module Bytes.

Definition byte_of_Z (z : Z) : byte :=
  default x00 (Byte.of_N (Z.to_N (z mod 256))).

Definition Z_of_byte (b : byte) : Z := Z.of_N (Byte.to_N b).

(** The [n] low-order bytes of [z], most significant first. *)
Fixpoint be_bytes (n : nat) (z : Z) : list byte :=
  match n with
  | O => []
  | S k => byte_of_Z (z / 256 ^ Z.of_nat k) :: be_bytes k z
  end.

Definition be_to_Z (bs : list byte) : Z :=
  fold_left (fun acc b => acc * 256 + Z_of_byte b) bs 0.

Definition zeros (n : nat) : list byte := replicate n x00.

(** Number of bytes that pad [len] up to the next multiple of 32. *)
Definition pad32 (len : nat) : nat := Z.to_nat ((- Z.of_nat len) mod 32).

Definition bytes_of_string (s : string) : list byte :=
  List.map Ascii.byte_of_ascii (list_ascii_of_string s).

End Bytes.

(** ** Solidity execution results *)

Module Solidity.

Inductive revert : Type :=
| Error (reason : string)   (* require(cond, reason) / revert(reason) *)
| Panic (code : Z)          (* 0x11 arithmetic overflow, 0x12 division by zero *)
| RevertEmpty.              (* abi.decode failure, call to a non-contract *)

Inductive result (A : Type) : Type :=
| Ok (a : A)
| Rev (r : revert).
Arguments Ok {A} a.
Arguments Rev {A} r.

#[global] Instance result_ret : MRet result := fun A a => Ok a.
#[global] Instance result_bind : MBind result := fun A B f m =>
  match m with
  | Ok a => f a
  | Rev r => Rev r
  end.

Definition require (cond : bool) (reason : string) : result unit :=
  if cond then Ok tt else Rev (Error reason).

Definition uint256_max : Z := 2 ^ 256 - 1.

Definition checked_add (a b : Z) : result Z :=
  if a + b <=? uint256_max then Ok (a + b) else Rev (Panic 17).

Definition checked_mul (a b : Z) : result Z :=
  if a * b <=? uint256_max then Ok (a * b) else Rev (Panic 17).

Definition checked_div (a b : Z) : result Z :=
  if b =? 0 then Rev (Panic 18) else Ok (a / b).

(** A transaction commits the storage its body returns, or reverts to the
    storage it started from. *)
Definition transact {S : Type} (s : S) (body : result S) : S :=
  match body with
  | Ok s' => s'
  | Rev _ => s
  end.

(** Reading a mapping: absent keys hold the zero value. *)
Definition mapping_get `{Countable K} {V : Type} (zero : V) (m : gmap K V) (k : K) : V :=
  default zero (m !! k).

Definition checked_sub (a b : Z) : result Z :=
if b <=? a then Ok (a - b) else Rev (Panic 17).

(** Reading and writing an array element; an index out of range aborts with
    panic 0x32. *)
Definition array_get (l : list Z) (i : Z) : result Z :=
match l !! Z.to_nat i with
| Some x => Ok x
| None => Rev (Panic 50)
end.

Definition array_set (l : list Z) (i : Z) (x : Z) : result (list Z) :=
if (Z.to_nat i <? length l)%nat then Ok (<[Z.to_nat i := x]> l) else Rev (Panic 50).

(** *** ABI coding *)

Import Bytes.

(** [abi.decode] reads 32-byte words from the head of the payload. *)
Definition abi_word (i : nat) (bs : list byte) : Z :=
  be_to_Z (take 32 (drop (32 * i) bs)).

(** [abi.decode(params, (address, uint256, uint256))]: the payload must hold
    three words and the address word must fit 160 bits. *)
Definition abi_decode_address_uint256_uint256 (bs : list byte) : result (Z * Z * Z) :=
  if (length bs <? 96)%nat then Rev RevertEmpty
  else if 2 ^ 160 <=? abi_word 0 bs then Rev RevertEmpty
  else Ok (abi_word 0 bs, abi_word 1 bs, abi_word 2 bs).

(** [abi.decode(params, (uint256, uint256))]. *)
Definition abi_decode_uint256_uint256 (bs : list byte) : result (Z * Z) :=
  if (length bs <? 64)%nat then Rev RevertEmpty
  else Ok (abi_word 0 bs, abi_word 1 bs).

(** [abi.encode(address, uint256, uint256)], as the callers build swap
    parameters. *)
Definition abi_encode_address_uint256_uint256 (a x y : Z) : list byte :=
  be_bytes 32 a ++ be_bytes 32 x ++ be_bytes 32 y.

Definition abi_encode_uint256_uint256 (x y : Z) : list byte :=
  be_bytes 32 x ++ be_bytes 32 y.

End Solidity.

(** ** The six proposal fields, as values *)

Record ProposalFields : Type := {
  pf_vault : Z;             (* address *)
  pf_actionType : Z;        (* uint8 *)
  pf_params : list byte;    (* bytes *)
  pf_ipfsHash : Z;          (* bytes32 *)
  pf_nonce : Z;             (* uint256 *)
  pf_deadline : Z           (* uint256 *)
}.

(** The values fit the Solidity types of [executeProposal]'s parameters. *)
Definition proposal_in_range (p : ProposalFields) : Prop :=
  0 <= pf_vault p < 2 ^ 160 /\ 0 <= pf_actionType p < 2 ^ 8 /\
  0 <= pf_ipfsHash p < 2 ^ 256 /\ 0 <= pf_nonce p < 2 ^ 256 /\
  0 <= pf_deadline p < 2 ^ 256.

(** ** ProposalCodec: the two encodings in the repository *)

Module Codec.
Import Bytes.

(** [abi.encodePacked(vault, actionType, params, ipfsHash, nonce, deadline)]
    of [Executor._getProposalHash]: every field at its own width, no
    padding, dynamic bytes in place. *)
Definition abi_encodePacked (p : ProposalFields) : list byte :=
  be_bytes 20 (pf_vault p) ++
  be_bytes 1 (pf_actionType p) ++
  pf_params p ++
  be_bytes 32 (pf_ipfsHash p) ++
  be_bytes 32 (pf_nonce p) ++
  be_bytes 32 (pf_deadline p).

(** [defaultAbiCoder.encode(['address','uint8','bytes','bytes32','uint256',
    'uint256'], ...)] of [Signer.encodeProposal]: six head words (the third
    is the offset of the dynamic [bytes] tail), then the tail: a length word
    and the payload padded with zeros to a multiple of 32. *)
Definition defaultAbiCoder_encode (p : ProposalFields) : list byte :=
  be_bytes 32 (pf_vault p) ++
  be_bytes 32 (pf_actionType p) ++
  be_bytes 32 192 ++
  be_bytes 32 (pf_ipfsHash p) ++
  be_bytes 32 (pf_nonce p) ++
  be_bytes 32 (pf_deadline p) ++
  be_bytes 32 (Z.of_nat (length (pf_params p))) ++
  pf_params p ++
  zeros (pad32 (length (pf_params p))).

End Codec.

(** ** PolicyManager.sol *)

Module PolicyManager.
Import Solidity.

Record Policy : Type := {
  riskTolerance : Z;
  maxTradePercent : Z;
  emergencyThreshold : Z;
  allowedDex : list Z;
  isActive : bool;
  createdAt : Z;
  updatedAt : Z
}.

Definition zero_policy : Policy :=
  {| riskTolerance := 0; maxTradePercent := 0; emergencyThreshold := 0;
     allowedDex := []; isActive := false; createdAt := 0; updatedAt := 0 |}.

(** Storage: one [Policy] slot per vault address. *)
Record State : Type := {
  owner : Z;
  vaultPolicies : gmap Z Policy;
  authorizedValidators : gmap Z bool
}.

Definition MAX_RISK_TOLERANCE : Z := 100.
Definition MAX_TRADE_PERCENT : Z := 100.
Definition MAX_EMERGENCY_THRESHOLD : Z := 100.

Definition policy_of (st : State) (vault : Z) : Policy :=
  mapping_get zero_policy (vaultPolicies st) vault.

Definition onlyOwner (st : State) (sender : Z) : result unit :=
  require (sender =? owner st) "Ownable: caller is not the owner".

Definition onlyAuthorizedValidator (st : State) (sender : Z) : result unit :=
  require (mapping_get false (authorizedValidators st) sender || (sender =? owner st))
          "PolicyManager: Unauthorized validator".

(** The loop of [setPolicy] that refills [policy.allowedDex]. *)
Fixpoint push_allowedDex (stored : list Z) (allowedDex : list Z) : result (list Z) :=
  match allowedDex with
  | [] => Ok stored
  | d :: rest =>
      require (negb (d =? 0)) "PolicyManager: Invalid DEX address";;
      push_allowedDex (stored ++ [d]) rest
  end.

Definition setPolicy (st : State) (sender now : Z)
    (vault riskTolerance_ maxTradePercent_ emergencyThreshold_ : Z)
    (allowedDex_ : list Z) : result State :=
  onlyOwner st sender;;
  require (riskTolerance_ <=? MAX_RISK_TOLERANCE) "PolicyManager: Invalid risk tolerance";;
  require (maxTradePercent_ <=? MAX_TRADE_PERCENT) "PolicyManager: Invalid trade percent";;
  require (emergencyThreshold_ <=? MAX_EMERGENCY_THRESHOLD)
          "PolicyManager: Invalid emergency threshold";;
  require (negb (vault =? 0)) "PolicyManager: Invalid vault address";;
  require (0 <? length allowedDex_)%nat "PolicyManager: Must specify at least one DEX";;
  let policy := policy_of st vault in
  let isUpdate := createdAt policy >? 0 in
  dex ← push_allowedDex [] allowedDex_;
  let policy' :=
    {| riskTolerance := riskTolerance_;
       maxTradePercent := maxTradePercent_;
       emergencyThreshold := emergencyThreshold_;
       allowedDex := dex;
       isActive := true;
       createdAt := if isUpdate then createdAt policy else now;
       updatedAt := now |} in
  Ok {| owner := owner st;
        vaultPolicies := <[vault := policy']> (vaultPolicies st);
        authorizedValidators := authorizedValidators st |}.

(** The search loop over [policy.allowedDex] (with its [break]). *)
Fixpoint dex_allowed (dexAddress : Z) (allowed : list Z) : bool :=
  match allowed with
  | [] => false
  | d :: rest => if d =? dexAddress then true else dex_allowed dexAddress rest
  end.

Definition _validateSwapAction (vault : Z) (params : list byte) (policy : Policy)
  : result (bool * string) :=
  '(dexAddress, tradeAmount, vaultBalance) ← abi_decode_address_uint256_uint256 params;
  if negb (dex_allowed dexAddress (allowedDex policy)) then
    Ok (false, "PolicyManager: DEX not allowed by policy")
  else
    scaled ← checked_mul tradeAmount 100;
    tradePercent ← checked_div scaled vaultBalance;
    if tradePercent >? maxTradePercent policy then
      Ok (false, "PolicyManager: Trade size exceeds maximum allowed")
    else Ok (true, "").

Definition _validateLendingAction (vault : Z) (params : list byte) (policy : Policy)
  : result (bool * string) :=
  '(lendAmount, vaultBalance) ← abi_decode_uint256_uint256 params;
  scaled ← checked_mul lendAmount 100;
  lendPercent ← checked_div scaled vaultBalance;
  if lendPercent >? maxTradePercent policy then
    Ok (false, "PolicyManager: Lending amount exceeds maximum allowed")
  else Ok (true, "").

Definition _validateBorrowingAction (vault : Z) (params : list byte) (policy : Policy)
  : result (bool * string) :=
  '(borrowAmount, vaultBalance) ← abi_decode_uint256_uint256 params;
  scaled ← checked_mul borrowAmount 100;
  borrowPercent ← checked_div scaled vaultBalance;
  if borrowPercent >? maxTradePercent policy then
    Ok (false, "PolicyManager: Borrowing amount exceeds maximum allowed")
  else Ok (true, "").

Definition validateAction (st : State) (sender : Z)
    (vault actionType : Z) (params : list byte) : result (bool * string) :=
  onlyAuthorizedValidator st sender;;
  let policy := policy_of st vault in
  if createdAt policy =? 0 then
    Ok (false, "PolicyManager: No policy found for vault")
  else if negb (isActive policy) then
    Ok (false, "PolicyManager: Policy is inactive")
  else if actionType =? 0 then _validateSwapAction vault params policy
  else if actionType =? 1 then _validateLendingAction vault params policy
  else if actionType =? 2 then _validateBorrowingAction vault params policy
  else Ok (false, "PolicyManager: Unsupported action type").

Definition getPolicy (st : State) (vault : Z) : Policy := policy_of st vault.

Definition hasActivePolicy (st : State) (vault : Z) : bool :=
  (createdAt (policy_of st vault) >? 0) && isActive (policy_of st vault).

Definition deactivatePolicy (st : State) (sender now vault : Z) : result State :=
  onlyOwner st sender;;
  require (createdAt (policy_of st vault) >? 0) "PolicyManager: Policy does not exist";;
  let policy := policy_of st vault in
  let policy' :=
    {| riskTolerance := riskTolerance policy;
       maxTradePercent := maxTradePercent policy;
       emergencyThreshold := emergencyThreshold policy;
       allowedDex := allowedDex policy;
       isActive := false;
       createdAt := createdAt policy;
       updatedAt := now |} in
  Ok {| owner := owner st;
        vaultPolicies := <[vault := policy']> (vaultPolicies st);
        authorizedValidators := authorizedValidators st |}.

Definition addAuthorizedValidator (st : State) (sender validator : Z) : result State :=
  onlyOwner st sender;;
  Ok {| owner := owner st;
        vaultPolicies := vaultPolicies st;
        authorizedValidators := <[validator := true]> (authorizedValidators st) |}.

Definition removeAuthorizedValidator (st : State) (sender validator : Z) : result State :=
onlyOwner st sender;;
Ok {| owner := owner st;
      vaultPolicies := vaultPolicies st;
      authorizedValidators := <[validator := false]> (authorizedValidators st) |}.


(** The contract as deployed: the deployer owns it, no policy is set. *)
Definition deployed (deployer : Z) : State :=
{| owner := deployer; vaultPolicies := ∅; authorizedValidators := ∅ |}.

(** The state-changing entry points. *)
Inductive call : Type :=
| SetPolicy (vault riskTolerance_ maxTradePercent_ emergencyThreshold_ : Z)
            (allowedDex_ : list Z)
| DeactivatePolicy (vault : Z)
| AddAuthorizedValidator (validator : Z)
| RemoveAuthorizedValidator (validator : Z).

(** One transaction sent by [sender] at time [now]. *)
Definition step (st : State) (tx : Z * Z * call) : State :=
let '(sender, now, c) := tx in
transact st
  match c with
  | SetPolicy v rt mtp et dex => setPolicy st sender now v rt mtp et dex
  | DeactivatePolicy v => deactivatePolicy st sender now v
  | AddAuthorizedValidator a => addAuthorizedValidator st sender a
  | RemoveAuthorizedValidator a => removeAuthorizedValidator st sender a
  end.

Definition run (st : State) (txs : list (Z * Z * call)) : State :=
fold_left step txs st.

End PolicyManager.

(** ** AuditLog.sol *)

Module AuditLog.
Import Solidity.

Record ExecutionLog : Type := {
  vault : Z;
  executor : Z;
  actionType : Z;
  params : list byte;
  proposalHash : Z;
  ipfsHash : Z;
  timestamp : Z;
  blockNumber : Z;
  exists_ : bool
}.

Definition zero_log : ExecutionLog :=
  {| vault := 0; executor := 0; actionType := 0; params := []; proposalHash := 0;
     ipfsHash := 0; timestamp := 0; blockNumber := 0; exists_ := false |}.

Record State : Type := {
  owner : Z;
  executionLogs : gmap Z ExecutionLog;
  vaultExecutions : gmap Z (list Z);
  executorExecutions : gmap Z (list Z);
  allExecutions : list Z;
  totalExecutions : Z;
  authorizedLoggers : gmap Z bool
}.

Definition onlyAuthorizedLogger (st : State) (sender : Z) : result unit :=
  require ((sender =? owner st) || mapping_get false (authorizedLoggers st) sender)
          "AuditLog: Unauthorized logger".

Definition logExecution (st : State) (sender block_number : Z)
    (vault_ executor_ actionType_ : Z) (params_ : list byte)
    (proposalHash_ ipfsHash_ timestamp_ : Z) : result State :=
  onlyAuthorizedLogger st sender;;
  require (negb (vault_ =? 0)) "AuditLog: Invalid vault address";;
  require (negb (executor_ =? 0)) "AuditLog: Invalid executor address";;
  require (negb (proposalHash_ =? 0)) "AuditLog: Invalid proposal hash";;
  require (negb (ipfsHash_ =? 0)) "AuditLog: Invalid IPFS hash";;
  require (negb (exists_ (mapping_get zero_log (executionLogs st) proposalHash_)))
          "AuditLog: Execution already logged";;
  let log :=
    {| vault := vault_; executor := executor_; actionType := actionType_;
       params := params_; proposalHash := proposalHash_; ipfsHash := ipfsHash_;
       timestamp := timestamp_; blockNumber := block_number; exists_ := true |} in
  total ← checked_add (totalExecutions st) 1;
  Ok {| owner := owner st;
        executionLogs := <[proposalHash_ := log]> (executionLogs st);
        vaultExecutions :=
          <[vault_ := mapping_get [] (vaultExecutions st) vault_ ++ [proposalHash_]]>
            (vaultExecutions st);
        executorExecutions :=
          <[executor_ := mapping_get [] (executorExecutions st) executor_ ++ [proposalHash_]]>
            (executorExecutions st);
        allExecutions := allExecutions st ++ [proposalHash_];
        totalExecutions := total;
        authorizedLoggers := authorizedLoggers st |}.

Definition executionExists (st : State) (proposalHash_ : Z) : bool :=
  exists_ (mapping_get zero_log (executionLogs st) proposalHash_).

Definition getExecution (st : State) (proposalHash_ : Z) : result ExecutionLog :=
require (exists_ (mapping_get zero_log (executionLogs st) proposalHash_))
        "AuditLog: Execution not found";;
Ok (mapping_get zero_log (executionLogs st) proposalHash_).

Definition getVaultExecutions (st : State) (vault_ : Z) : list Z :=
mapping_get [] (vaultExecutions st) vault_.

Definition getExecutorExecutions (st : State) (executor_ : Z) : list Z :=
mapping_get [] (executorExecutions st) executor_.

Definition getVaultExecutionCount (st : State) (vault_ : Z) : Z :=
Z.of_nat (length (mapping_get [] (vaultExecutions st) vault_)).

Definition getExecutorExecutionCount (st : State) (executor_ : Z) : Z :=
Z.of_nat (length (mapping_get [] (executorExecutions st) executor_)).

(** The loop [for (i = offset; i < end; i++) result[i - offset] =
    allExecutions[i]], with [steps] iterations left. *)
Fixpoint copy_executions (all : list Z) (offset i : Z) (steps : nat) (result_ : list Z)
  : result (list Z) :=
match steps with
| O => Ok result_
| S k =>
    x ← array_get all i;
    d ← checked_sub i offset;
    result' ← array_set result_ d x;
    i' ← checked_add i 1;
    copy_executions all offset i' k result'
end.

Definition getAllExecutions (st : State) (offset limit : Z) : result (list Z) :=
let len := Z.of_nat (length (allExecutions st)) in
require (offset <? len) "AuditLog: Invalid offset";;
end0 ← checked_add offset limit;
let end_ := if end0 >? len then len else end0 in
size ← checked_sub end_ offset;
copy_executions (allExecutions st) offset offset (Z.to_nat (end_ - offset))
  (replicate (Z.to_nat size) 0).

(** The loop [for (i = 0; i < count; i++) result[i] =
    vaultExecs[length - 1 - i]]. *)
Fixpoint copy_recent (vaultExecs : list Z) (length_ i : Z) (steps : nat) (result_ : list Z)
  : result (list Z) :=
match steps with
| O => Ok result_
| S k =>
    last ← checked_sub length_ 1;
    idx ← checked_sub last i;
    x ← array_get vaultExecs idx;
    result' ← array_set result_ i x;
    i' ← checked_add i 1;
    copy_recent vaultExecs length_ i' k result'
end.

Definition getRecentVaultExecutions (st : State) (vault_ count : Z) : result (list Z) :=
let vaultExecs := mapping_get [] (vaultExecutions st) vault_ in
let length_ := Z.of_nat (length vaultExecs) in
let count' := if count >? length_ then length_ else count in
copy_recent vaultExecs length_ 0 (Z.to_nat count') (replicate (Z.to_nat count') 0).

Definition onlyOwner (st : State) (sender : Z) : result unit :=
require (sender =? owner st) "Ownable: caller is not the owner".

Definition with_authorizedLoggers (st : State) (loggers : gmap Z bool) : State :=
{| owner := owner st;
   executionLogs := executionLogs st;
   vaultExecutions := vaultExecutions st;
   executorExecutions := executorExecutions st;
   allExecutions := allExecutions st;
   totalExecutions := totalExecutions st;
   authorizedLoggers := loggers |}.

Definition addAuthorizedLogger (st : State) (sender logger : Z) : result State :=
onlyOwner st sender;;
require (negb (logger =? 0)) "AuditLog: Invalid logger address";;
Ok (with_authorizedLoggers st (<[logger := true]> (authorizedLoggers st))).

Definition removeAuthorizedLogger (st : State) (sender logger : Z) : result State :=
onlyOwner st sender;;
Ok (with_authorizedLoggers st (<[logger := false]> (authorizedLoggers st))).

(** What the four views of the log have in common: the counter is the length
    of the global list, the global list has no duplicates and holds exactly
    the hashes that exist, every record sits under its own hash, and the list
    of a vault (of an executor) is the global list restricted to the records
    of that vault (of that executor). *)
Definition consistent (st : State) : Prop :=
  totalExecutions st = Z.of_nat (length (allExecutions st)) /\
  NoDup (allExecutions st) /\
  (forall h, h ∈ allExecutions st <-> executionExists st h = true) /\
  (forall h l, executionLogs st !! h = Some l -> proposalHash l = h /\ exists_ l = true) /\
  (forall v, getVaultExecutions st v =
             filter (fun h => vault (mapping_get zero_log (executionLogs st) h) = v)
               (allExecutions st)) /\
  (forall e, getExecutorExecutions st e =
             filter (fun h => executor (mapping_get zero_log (executionLogs st) h) = e)
               (allExecutions st)).

(** The contract as deployed. *)
Definition deployed (deployer : Z) : State :=
{| owner := deployer; executionLogs := ∅; vaultExecutions := ∅; executorExecutions := ∅;
   allExecutions := []; totalExecutions := 0; authorizedLoggers := ∅ |}.

(** The state-changing entry points. *)
Inductive call : Type :=
| LogExecution (block_number vault_ executor_ actionType_ : Z) (params_ : list byte)
               (proposalHash_ ipfsHash_ timestamp_ : Z)
| AddAuthorizedLogger (logger : Z)
| RemoveAuthorizedLogger (logger : Z).

Definition step (st : State) (tx : Z * call) : State :=
let '(sender, c) := tx in
transact st
  match c with
  | LogExecution bn v e a ps h ih ts => logExecution st sender bn v e a ps h ih ts
  | AddAuthorizedLogger l => addAuthorizedLogger st sender l
  | RemoveAuthorizedLogger l => removeAuthorizedLogger st sender l
  end.

Definition run (st : State) (txs : list (Z * call)) : State :=
fold_left step txs st.

End AuditLog.

(** ** Vault.sol: the part the Executor calls *)

Module Vault.
Import Solidity.

(** Token balances and the supported-token set are left out: [executeAction]
    neither reads nor writes them. *)
Record State : Type := {
  owner : Z;
  authorizedExecutors : gmap Z bool;
  lastActivity : Z
}.

Definition onlyAuthorizedExecutor (st : State) (sender : Z) : result unit :=
  require (mapping_get false (authorizedExecutors st) sender) "Vault: Unauthorized executor".

Definition executeAction (st : State) (sender now : Z)
    (actionType : Z) (params : list byte) : result State :=
  onlyAuthorizedExecutor st sender;;
  Ok {| owner := owner st;
        authorizedExecutors := authorizedExecutors st;
        lastActivity := now |}.

Definition onlyOwner (st : State) (sender : Z) : result unit :=
require (sender =? owner st) "Ownable: caller is not the owner".

Definition addAuthorizedExecutor (st : State) (sender executor_ : Z) : result State :=
onlyOwner st sender;;
Ok {| owner := owner st;
      authorizedExecutors := <[executor_ := true]> (authorizedExecutors st);
      lastActivity := lastActivity st |}.

Definition removeAuthorizedExecutor (st : State) (sender executor_ : Z) : result State :=
onlyOwner st sender;;
Ok {| owner := owner st;
      authorizedExecutors := <[executor_ := false]> (authorizedExecutors st);
      lastActivity := lastActivity st |}.

End Vault.

(** ** Executor.sol *)

Module Executor.
Import Solidity Bytes.

Record State : Type := {
  owner : Z;
  agentSigner : Z;
  policyManager : Z;             (* address of the PolicyManager in use *)
  auditLog : Z;                  (* address of the AuditLog in use *)
  usedNonces : gmap Z bool;      (* mapping(bytes32 => bool) *)
  vaultNonces : gmap Z Z         (* mapping(address => uint256), never written *)
}.

(** The chain as the Executor sees it: its own address and storage, and the
    contracts deployed at the addresses it calls. *)
Record World : Type := {
  self : Z;
  executor : State;
  policyManagers : gmap Z PolicyManager.State;
  auditLogs : gmap Z AuditLog.State;
  vaults : gmap Z Vault.State
}.

Record Env : Type := {
  msg_sender : Z;
  block_timestamp : Z;
  block_number : Z
}.

Definition MAX_DEADLINE_DURATION : Z := 3600.   (* 1 hours *)
Definition MIN_DEADLINE_DURATION : Z := 300.    (* 5 minutes *)

Definition with_executor (w : World) (ex : State) : World :=
  {| self := self w; executor := ex; policyManagers := policyManagers w;
     auditLogs := auditLogs w; vaults := vaults w |}.

Definition set_agentSigner (ex : State) (a : Z) : State :=
  {| owner := owner ex; agentSigner := a; policyManager := policyManager ex;
     auditLog := auditLog ex; usedNonces := usedNonces ex; vaultNonces := vaultNonces ex |}.

Definition set_policyManager (ex : State) (a : Z) : State :=
  {| owner := owner ex; agentSigner := agentSigner ex; policyManager := a;
     auditLog := auditLog ex; usedNonces := usedNonces ex; vaultNonces := vaultNonces ex |}.

Definition set_auditLog (ex : State) (a : Z) : State :=
  {| owner := owner ex; agentSigner := agentSigner ex; policyManager := policyManager ex;
     auditLog := a; usedNonces := usedNonces ex; vaultNonces := vaultNonces ex |}.

Definition mark_nonce (ex : State) (nonceKey : Z) : State :=
  {| owner := owner ex; agentSigner := agentSigner ex; policyManager := policyManager ex;
     auditLog := auditLog ex; usedNonces := <[nonceKey := true]> (usedNonces ex);
     vaultNonces := vaultNonces ex |}.

Definition onlyOwner (ex : State) (sender : Z) : result unit :=
  require (sender =? owner ex) "Ownable: caller is not the owner".

(** A high-level call to an address that holds no contract reverts without
    data. *)
Definition contract_at {C : Type} (m : gmap Z C) (a : Z) : result C :=
  match m !! a with
  | Some c => Ok c
  | None => Rev RevertEmpty
  end.

Definition validDeadline (now deadline : Z) : result unit :=
  require (deadline >? now) "Executor: Deadline has passed";;
  latest ← checked_add now MAX_DEADLINE_DURATION;
  require (deadline <=? latest) "Executor: Deadline too far";;
  earliest ← checked_add now MIN_DEADLINE_DURATION;
  require (deadline >=? earliest) "Executor: Deadline too soon".

(** The 28 bytes of ["\x19Ethereum Signed Message:\n32"]. *)
Definition signed_message_prefix : list byte :=
  x19 :: bytes_of_string "Ethereum Signed Message:" ++ [x0a] ++ bytes_of_string "32".

Section WithPrimitives.

(** The hash function and the curve operation behind the [ecrecover]
    precompile are those of the platform. *)
Variable keccak256 : list byte -> Z.
Variable secp256k1_recover : Z -> Z -> Z -> Z -> option Z.

(** The precompile produces no output when [v] is neither 27 nor 28 or when
    no public key can be recovered; Solidity then reads [address(0)]. *)
Definition ecrecover (hash v r s : Z) : Z :=
  if (v =? 27) || (v =? 28) then default 0 (secp256k1_recover hash v r s) else 0.

Definition _getProposalHash (p : ProposalFields) : Z :=
  keccak256 (Codec.abi_encodePacked p).

Definition getProposalHash (p : ProposalFields) : Z := _getProposalHash p.

Definition messageHash (proposalHash : Z) : Z :=
  keccak256 (signed_message_prefix ++ be_bytes 32 proposalHash).

(** The assembly block of [_verifySignature] that splits the signature
    into [r], [s], [v], followed by the call of [ecrecover]. *)
Definition recover_signer (proposalHash : Z) (signature : list byte) : Z :=
  let r := be_to_Z (take 32 signature) in
  let s := be_to_Z (take 32 (drop 32 signature)) in
  let v := be_to_Z (take 1 (drop 64 signature)) in
  ecrecover (messageHash proposalHash) v r s.

Definition _verifySignature (ex : State) (proposalHash : Z) (signature : list byte)
  : result bool :=
  require (length signature =? 65)%nat "Executor: Invalid signature length";;
  let recovered := recover_signer proposalHash signature in
  Ok (recovered =? agentSigner ex).

(** [keccak256(abi.encodePacked(agentSigner, nonce))]. *)
Definition nonceKey (ex : State) (nonce : Z) : Z :=
  keccak256 (be_bytes 20 (agentSigner ex) ++ be_bytes 32 nonce).

Definition nonce_used (ex : State) (key : Z) : bool :=
  mapping_get false (usedNonces ex) key.

(** [executeProposal], up to and including the write of [usedNonces]:
    the deadline modifier, the signature check, the replay check and the
    mark. *)
Definition verify_and_mark (w : World) (env : Env) (p : ProposalFields)
    (signature : list byte) : result World :=
  let ex := executor w in
  validDeadline (block_timestamp env) (pf_deadline p);;
  let proposalHash := _getProposalHash p in
  ok ← _verifySignature ex proposalHash signature;
  require ok "Executor: Invalid signature";;
  let key := nonceKey ex (pf_nonce p) in
  require (negb (nonce_used ex key)) "Executor: Nonce already used";;
  Ok (with_executor w (mark_nonce ex key)).

(** The policy dispatch that follows the mark. *)
Definition check_policy (w : World) (p : ProposalFields) : result unit :=
  pm ← contract_at (policyManagers w) (policyManager (executor w));
  '(isValid, reason) ←
    PolicyManager.validateAction pm (self w) (pf_vault p) (pf_actionType p) (pf_params p);
  require isValid reason.

(** The effect: the vault action, then the audit write. *)
Definition perform_effect (w : World) (env : Env) (p : ProposalFields) : result World :=
  vault ← contract_at (vaults w) (pf_vault p);
  vault' ← Vault.executeAction vault (self w) (block_timestamp env)
             (pf_actionType p) (pf_params p);
  log ← contract_at (auditLogs w) (auditLog (executor w));
  log' ← AuditLog.logExecution log (self w) (block_number env)
           (pf_vault p) (msg_sender env) (pf_actionType p) (pf_params p)
           (_getProposalHash p) (pf_ipfsHash p) (block_timestamp env);
  Ok {| self := self w;
        executor := executor w;
        policyManagers := policyManagers w;
        auditLogs := <[auditLog (executor w) := log']> (auditLogs w);
        vaults := <[pf_vault p := vault']> (vaults w) |}.

(** The body of [executeProposal]. The [nonReentrant] guard is passed by
    every call modelled here: no callee calls back into the Executor. *)
Definition executeProposal (w : World) (env : Env) (p : ProposalFields)
    (signature : list byte) : result World :=
  w1 ← verify_and_mark w env p signature;
  check_policy w1 p;;
  perform_effect w1 env p.

Definition getNextNonce (ex : State) (vault : Z) : result Z :=
  checked_add (mapping_get 0 (vaultNonces ex) vault) 1.

Definition isNonceUsed (ex : State) (nonce : Z) : bool :=
  nonce_used ex (nonceKey ex nonce).

Definition updateAgentSigner (w : World) (env : Env) (newAgentSigner : Z) : result World :=
  onlyOwner (executor w) (msg_sender env);;
  require (negb (newAgentSigner =? 0)) "Executor: Invalid agent signer";;
  Ok (with_executor w (set_agentSigner (executor w) newAgentSigner)).

Definition updatePolicyManager (w : World) (env : Env) (newPolicyManager : Z)
  : result World :=
  onlyOwner (executor w) (msg_sender env);;
  require (negb (newPolicyManager =? 0)) "Executor: Invalid policy manager";;
  Ok (with_executor w (set_policyManager (executor w) newPolicyManager)).

Definition updateAuditLog (w : World) (env : Env) (newAuditLog : Z) : result World :=
  onlyOwner (executor w) (msg_sender env);;
  require (negb (newAuditLog =? 0)) "Executor: Invalid audit log";;
  Ok (with_executor w (set_auditLog (executor w) newAuditLog)).

Definition emergencyPause (w : World) (env : Env) : result World :=
  onlyOwner (executor w) (msg_sender env);;
  Ok (with_executor w (set_agentSigner (executor w) 0)).

Definition emergencyUnpause (w : World) (env : Env) (newAgentSigner : Z) : result World :=
  onlyOwner (executor w) (msg_sender env);;
  require (negb (newAgentSigner =? 0)) "Executor: Invalid agent signer";;
  Ok (with_executor w (set_agentSigner (executor w) newAgentSigner)).

(** The constructor; the deployer becomes the owner. *)
Definition constructor (deployer _agentSigner _policyManager _auditLog : Z) : result State :=
require (negb (_agentSigner =? 0)) "Executor: Invalid agent signer";;
require (negb (_policyManager =? 0)) "Executor: Invalid policy manager";;
require (negb (_auditLog =? 0)) "Executor: Invalid audit log";;
Ok {| owner := deployer; agentSigner := _agentSigner; policyManager := _policyManager;
      auditLog := _auditLog; usedNonces := ∅; vaultNonces := ∅ |}.

(** *** Traces of transactions *)

Inductive call : Type :=
| ExecuteProposal (p : ProposalFields) (signature : list byte)
| UpdateAgentSigner (newAgentSigner : Z)
| UpdatePolicyManager (newPolicyManager : Z)
| UpdateAuditLog (newAuditLog : Z)
| EmergencyPause
| EmergencyUnpause (newAgentSigner : Z)
(* any transaction that does not enter the Executor: it may rewrite the
   other contracts at will and leaves the Executor's storage alone *)
| Elsewhere (pms : gmap Z PolicyManager.State) (logs : gmap Z AuditLog.State)
            (vs : gmap Z Vault.State).

Definition body (w : World) (env : Env) (c : call) : result World :=
  match c with
  | ExecuteProposal p signature => executeProposal w env p signature
  | UpdateAgentSigner a => updateAgentSigner w env a
  | UpdatePolicyManager a => updatePolicyManager w env a
  | UpdateAuditLog a => updateAuditLog w env a
  | EmergencyPause => emergencyPause w env
  | EmergencyUnpause a => emergencyUnpause w env a
  | Elsewhere pms logs vs =>
      Ok {| self := self w; executor := executor w; policyManagers := pms;
            auditLogs := logs; vaults := vs |}
  end.

(** One transaction: the world afterwards. *)
Definition step (w : World) (tx : Env * call) : World :=
  transact w (body w (fst tx) (snd tx)).

Definition run (w : World) (txs : list (Env * call)) : World :=
  fold_left step txs w.

(** Whether a transaction went through. *)
Definition succeeds {A : Type} (r : result A) : bool :=
  match r with
  | Ok _ => true
  | Rev _ => false
  end.

End WithPrimitives.

End Executor.

(** ** signer.ts *)

Module Signer.
Import Bytes.

(** [interface Proposal]: addresses, byte strings and hashes travel as hex
    strings, numbers as integers. *)
Record Proposal : Type := {
  vault : string;
  actionType : Z;
  params : string;
  ipfsHash : string;
  nonce : Z;
  deadline : Z
}.

(** [nonceTracker: Map<string, number>]. *)
Definition getNextNonce (nonceTracker : gmap string Z) (vaultAddress : string)
  : Z * gmap string Z :=
  let currentNonce := default 0 (nonceTracker !! vaultAddress) in
  let nextNonce := currentNonce + 1 in
  (nextNonce, <[vaultAddress := nextNonce]> nonceTracker).

Definition getCurrentNonce (nonceTracker : gmap string Z) (vaultAddress : string) : Z :=
  default 0 (nonceTracker !! vaultAddress).

Definition resetNonce (nonceTracker : gmap string Z) (vaultAddress : string)
  : gmap string Z :=
<[vaultAddress := 0]> nonceTracker.

Definition isNonceUsed (nonceTracker : gmap string Z) (vaultAddress : string) (nonce_ : Z)
  : bool :=
let currentNonce := default 0 (nonceTracker !! vaultAddress) in
nonce_ <=? currentNonce.

Definition default_deadlineOffset : Z := 3600.

(** [now_ms] is [Date.now()]. *)
Definition createProposal (nonceTracker : gmap string Z) (now_ms : Z)
    (vaultAddress : string) (actionType_ : Z) (params_ ipfsHash_ : string)
    (deadlineOffset : Z) : Proposal * gmap string Z :=
  let '(nonce_, tracker') := getNextNonce nonceTracker vaultAddress in
  let deadline_ := now_ms / 1000 + deadlineOffset in
  ({| vault := vaultAddress; actionType := actionType_; params := params_;
      ipfsHash := ipfsHash_; nonce := nonce_; deadline := deadline_ |},
   tracker').

(** A run of [createProposal] calls on one Signer, each with its own clock
    reading and arguments. *)
Record request : Type := {
  req_now_ms : Z;
  req_vault : string;
  req_actionType : Z;
  req_params : string;
  req_ipfsHash : string;
  req_deadlineOffset : Z
}.

Fixpoint createProposals (nonceTracker : gmap string Z) (reqs : list request)
  : list Proposal * gmap string Z :=
match reqs with
| [] => ([], nonceTracker)
| r :: rest =>
    let '(p, tracker') :=
      createProposal nonceTracker (req_now_ms r) (req_vault r) (req_actionType r)
        (req_params r) (req_ipfsHash r) (req_deadlineOffset r) in
    let '(ps, tracker'') := createProposals tracker' rest in
    (p :: ps, tracker'')
end.

Section WithEthers.

(** The helpers of the ethers library the Signer relies on. *)
Variable isAddress : string -> bool.
Variable getAddress : string -> option Z.           (* address coder *)
Variable arrayify : string -> option (list byte).   (* hex string to bytes *)
Variable keccak256 : list byte -> Z.

Definition validateProposal (now_ms : Z) (proposal : Proposal) : bool :=
  if String.eqb (vault proposal) "" || negb (isAddress (vault proposal)) then false
  else if (actionType proposal <? 0) || (actionType proposal >? 5) then false
  else if String.eqb (params proposal) "" || (String.length (params proposal) =? 0)%nat
       then false
  else if String.eqb (ipfsHash proposal) ""
          || negb (String.length (ipfsHash proposal) =? 66)%nat then false
  else if nonce proposal <? 0 then false
  else if deadline proposal <=? now_ms / 1000 then false
  else
    let maxDeadline := now_ms / 1000 + 24 * 60 * 60 in
    if deadline proposal >? maxDeadline then false
    else true.

(** The values the ABI coder reads out of a proposal; it throws ([None])
    when a field does not fit its type. *)
Definition abi_fields (proposal : Proposal) : option ProposalFields :=
  a ← getAddress (vault proposal);
  ps ← arrayify (params proposal);
  h ← arrayify (ipfsHash proposal);
  if negb (length h =? 32)%nat then None
  else if (actionType proposal <? 0) || (255 <? actionType proposal) then None
  else if (nonce proposal <? 0) || (deadline proposal <? 0) then None
  else Some {| pf_vault := a; pf_actionType := actionType proposal; pf_params := ps;
               pf_ipfsHash := be_to_Z h; pf_nonce := nonce proposal;
               pf_deadline := deadline proposal |}.

Definition encodeProposal (proposal : Proposal) : option (list byte) :=
  Codec.defaultAbiCoder_encode <$> abi_fields proposal.

Definition getProposalHash (proposal : Proposal) : option Z :=
  keccak256 <$> encodeProposal proposal.

(** The digest [wallet.signMessage(arrayify(messageHash))] signs. *)
Definition signedDigest (proposal : Proposal) : option Z :=
  h ← getProposalHash proposal;
  Some (keccak256 (Executor.signed_message_prefix ++ be_bytes 32 h)).

End WithEthers.

End Signer.

(** ** Sample instances used to run the model on concrete inputs *)

Module Sample.
Import Solidity Bytes.

(** A stand-in for the hash: it reads the input as one big-endian number. *)
Definition keccak256 (bs : list byte) : Z := 1 + be_to_Z bs.

(** A stand-in for the signature scheme: the signer with address [r] signs
    the digest [hash] with [s = (hash + r) mod 2^256]. *)
Definition secp256k1_recover (hash v r s : Z) : option Z :=
  if (s =? (hash + r) mod 2 ^ 256) && (0 <? r) && (r <? 2 ^ 160) then Some r else None.

Definition sign (signer : Z) (p : ProposalFields) : list byte :=
  let digest := Executor.messageHash keccak256 (Executor._getProposalHash keccak256 p) in
  be_bytes 32 signer ++ be_bytes 32 ((digest + signer) mod 2 ^ 256) ++ [x1b].

Definition owner_addr : Z := 1.
Definition agent_addr : Z := 10.
Definition executor_addr : Z := 14.
Definition relayer_addr : Z := 15.
Definition dex_addr : Z := 13.
Definition pm_addr : Z := 80.
Definition log_addr : Z := 96.
Definition vault_a : Z := 112.
Definition vault_b : Z := 113.
Definition now : Z := 1700000000.

Definition policy : PolicyManager.Policy :=
  {| PolicyManager.riskTolerance := 50;
     PolicyManager.maxTradePercent := 10;
     PolicyManager.emergencyThreshold := 90;
     PolicyManager.allowedDex := [dex_addr];
     PolicyManager.isActive := true;
     PolicyManager.createdAt := 1699990000;
     PolicyManager.updatedAt := 1699990000 |}.

Definition pm : PolicyManager.State :=
  {| PolicyManager.owner := owner_addr;
     PolicyManager.vaultPolicies := <[vault_a := policy]> (<[vault_b := policy]> ∅);
     PolicyManager.authorizedValidators := <[executor_addr := true]> ∅ |}.

Definition log : AuditLog.State :=
  {| AuditLog.owner := owner_addr;
     AuditLog.executionLogs := ∅;
     AuditLog.vaultExecutions := ∅;
     AuditLog.executorExecutions := ∅;
     AuditLog.allExecutions := [];
     AuditLog.totalExecutions := 0;
     AuditLog.authorizedLoggers := <[executor_addr := true]> ∅ |}.

Definition vault (authorized : bool) : Vault.State :=
  {| Vault.owner := owner_addr;
     Vault.authorizedExecutors := <[executor_addr := authorized]> ∅;
     Vault.lastActivity := 0 |}.

Definition executor : Executor.State :=
  {| Executor.owner := owner_addr;
     Executor.agentSigner := agent_addr;
     Executor.policyManager := pm_addr;
     Executor.auditLog := log_addr;
     Executor.usedNonces := ∅;
     Executor.vaultNonces := ∅ |}.

(** Vault A has authorized the Executor; for vault B it is a switch. *)
Definition world (b_authorized : bool) : Executor.World :=
  {| Executor.self := executor_addr;
     Executor.executor := executor;
     Executor.policyManagers := <[pm_addr := pm]> ∅;
     Executor.auditLogs := <[log_addr := log]> ∅;
     Executor.vaults := <[vault_a := vault true]> (<[vault_b := vault b_authorized]> ∅) |}.

Definition env : Executor.Env :=
  {| Executor.msg_sender := relayer_addr;
     Executor.block_timestamp := now;
     Executor.block_number := 1000 |}.

Definition owner_env : Executor.Env :=
  {| Executor.msg_sender := owner_addr;
     Executor.block_timestamp := now;
     Executor.block_number := 1000 |}.

(** A swap of [amount] out of a balance of [balance] through the allowed
    venue. *)
Definition swap (vault_ amount balance nonce_ deadline_ : Z) : ProposalFields :=
  {| pf_vault := vault_;
     pf_actionType := 0;
     pf_params := abi_encode_address_uint256_uint256 dex_addr amount balance;
     pf_ipfsHash := 7;
     pf_nonce := nonce_;
     pf_deadline := deadline_ |}.

Definition lend (vault_ amount balance nonce_ deadline_ : Z) : ProposalFields :=
  {| pf_vault := vault_;
     pf_actionType := 1;
     pf_params := abi_encode_uint256_uint256 amount balance;
     pf_ipfsHash := 7;
     pf_nonce := nonce_;
     pf_deadline := deadline_ |}.

End Sample.

(** * Properties *)

Import Solidity Bytes.

(** ** The result monad *)

Lemma bind_Ok {A B : Type} (m : result A) (f : A -> result B) (b : B) :
  m ≫= f = Ok b <-> exists a, m = Ok a /\ f a = Ok b.
Proof.
  destruct m as [a | r]; simpl; split.
  - intros H. exists a. split; [reflexivity | exact H].
  - intros (a' & Ha & Hf). inversion Ha; subst. exact Hf.
  - discriminate.
  - intros (a' & Ha & _). discriminate.
Qed.

Lemma require_Ok (c : bool) (msg : string) (u : unit) :
  require c msg = Ok u <-> c = true.
Proof.
  unfold require. destruct c, u; split; intros H; try reflexivity; discriminate.
Qed.

Lemma require_true (msg : string) : require true msg = Ok tt.
Proof. reflexivity. Qed.

Lemma require_false (msg : string) : require false msg = Rev (Error msg).
Proof. reflexivity. Qed.

(** Peel one successful step off a chain of binds. *)
Ltac bind_inv H :=
  let a := fresh "a" in
  let Ha := fresh "Hstep" in
  apply bind_Ok in H; destruct H as (a & Ha & H).

Lemma checked_add_Ok (a b : Z) :
  a + b <= uint256_max -> checked_add a b = Ok (a + b).
Proof.
  intros H. unfold checked_add.
  destruct (Z.leb_spec (a + b) uint256_max); [reflexivity | lia].
Qed.

Lemma checked_mul_Ok (a b : Z) :
  a * b <= uint256_max -> checked_mul a b = Ok (a * b).
Proof.
  intros H. unfold checked_mul.
  destruct (Z.leb_spec (a * b) uint256_max); [reflexivity | lia].
Qed.

(** ** Bytes *)

Lemma length_be_bytes (n : nat) (z : Z) : length (be_bytes n z) = n.
Proof. induction n as [| n IH]; simpl; [reflexivity | now rewrite IH]. Qed.

Lemma length_zeros (n : nat) : length (zeros n) = n.
Proof. apply length_replicate. Qed.

(** ** C1: the two proposal encodings *)

Lemma length_abi_encodePacked (p : ProposalFields) :
  length (Codec.abi_encodePacked p) = (117 + length (pf_params p))%nat.
Proof.
  unfold Codec.abi_encodePacked.
  rewrite !length_app, !length_be_bytes. lia.
Qed.

Lemma length_defaultAbiCoder_encode (p : ProposalFields) :
  length (Codec.defaultAbiCoder_encode p)
  = (224 + length (pf_params p) + pad32 (length (pf_params p)))%nat.
Proof.
  unfold Codec.defaultAbiCoder_encode.
  rewrite !length_app, !length_be_bytes, length_zeros. lia.
Qed.

Lemma encodings_differ_by_length (p : ProposalFields) :
  Codec.defaultAbiCoder_encode p <> Codec.abi_encodePacked p.
Proof.
  intros Heq. apply (f_equal (@length byte)) in Heq.
  rewrite length_defaultAbiCoder_encode, length_abi_encodePacked in Heq. lia.
Qed.

(** C1 (fails on the code). For every proposal the bytes the Signer hashes
    ([defaultAbiCoder.encode]: at least 224 bytes beyond the payload) differ
    from the bytes the Executor hashes ([abi.encodePacked]: 117 bytes beyond
    the payload); the two sides never hash the same encoding. *)
Theorem signer_and_executor_encodings_differ (p : ProposalFields) :
  length (Codec.abi_encodePacked p) = (117 + length (pf_params p))%nat /\
  (224 + length (pf_params p) <= length (Codec.defaultAbiCoder_encode p))%nat /\
  Codec.defaultAbiCoder_encode p <> Codec.abi_encodePacked p.
Proof.
  split; [apply length_abi_encodePacked |].
  split; [rewrite length_defaultAbiCoder_encode; lia |].
  apply encodings_differ_by_length.
Qed.

(** The Signer's proposal hash can equal the Executor's only through a
    collision of the hash function. *)
Lemma proposal_hashes_agree_only_on_collision
    (getAddress : string -> option Z) (arrayify : string -> option (list byte))
    (keccak256 : list byte -> Z) (proposal : Signer.Proposal) (p : ProposalFields) (h : Z) :
  Signer.abi_fields getAddress arrayify proposal = Some p ->
  Signer.getProposalHash getAddress arrayify keccak256 proposal = Some h ->
  h = Executor._getProposalHash keccak256 p ->
  exists a b : list byte, a <> b /\ keccak256 a = keccak256 b.
Proof.
  intros Hf Hh Heq.
  unfold Signer.getProposalHash, Signer.encodeProposal in Hh.
  rewrite Hf in Hh. simpl in Hh.
  exists (Codec.defaultAbiCoder_encode p), (Codec.abi_encodePacked p).
  split; [apply encodings_differ_by_length |].
  unfold Executor._getProposalHash in Heq. congruence.
Qed.

(** On the sample hash, the two hashes of one and the same proposal differ. *)
Example sample_proposal_hashes_differ :
  let p := Sample.swap Sample.vault_a 100 1000 1 (Sample.now + 3600) in
  Sample.keccak256 (Codec.defaultAbiCoder_encode p)
  <> Executor._getProposalHash Sample.keccak256 p.
Proof. vm_compute. discriminate. Qed.

(** ** C7: the deadline window *)

Lemma validDeadline_spec (now deadline : Z) :
  now + Executor.MAX_DEADLINE_DURATION <= uint256_max ->
  Executor.validDeadline now deadline =
    if deadline <=? now then Rev (Error "Executor: Deadline has passed")
    else if now + 3600 <? deadline then Rev (Error "Executor: Deadline too far")
    else if deadline <? now + 300 then Rev (Error "Executor: Deadline too soon")
    else Ok tt.
Proof.
  intros Hmax. unfold Executor.validDeadline.
  unfold Executor.MAX_DEADLINE_DURATION, Executor.MIN_DEADLINE_DURATION in *.
  rewrite (checked_add_Ok now 3600), (checked_add_Ok now 300) by lia.
  cbv beta iota delta [mbind result_bind].
  rewrite Z.gtb_ltb, Z.geb_leb.
  destruct (Z.leb_spec deadline now) as [Hle | Hgt];
    destruct (Z.ltb_spec now deadline) as [Hlt | Hge]; try lia; simpl; [reflexivity |].
  destruct (Z.ltb_spec (now + 3600) deadline) as [Hfar | Hnear];
    destruct (Z.leb_spec deadline (now + 3600)) as [Hle' | Hgt']; try lia; simpl;
    [reflexivity |].
  destruct (Z.ltb_spec deadline (now + 300)) as [Hsoon | Hok];
    destruct (Z.leb_spec (now + 300) deadline) as [Hle2 | Hgt2]; try lia; reflexivity.
Qed.

Section DeadlineFirst.

Variable keccak256 : list byte -> Z.
Variable secp256k1_recover : Z -> Z -> Z -> Z -> option Z.

Abbreviation executeProposal := (Executor.executeProposal keccak256 secp256k1_recover).

(** The deadline modifier runs first: when it reverts, the whole call
    reverts with its reason, whatever the world, the proposal's other
    fields and the signature are. *)
Lemma executeProposal_deadline_first (w : Executor.World) (env : Executor.Env)
    (p : ProposalFields) (signature : list byte) (r : revert) :
  Executor.validDeadline (Executor.block_timestamp env) (pf_deadline p) = Rev r ->
  executeProposal w env p signature = Rev r.
Proof.
  intros H. unfold Executor.executeProposal, Executor.verify_and_mark.
  rewrite H. reflexivity.
Qed.

End DeadlineFirst.

(** C7 (as the code has it). With [now] the block timestamp: a deadline at or
    before [now] is rejected ("Deadline has passed"); a deadline is let
    through by the deadline check exactly when
    [now + 300 <= deadline <= now + 3600]; so a deadline one second in the
    future is rejected ("Deadline too soon"); and a deadline rejection
    precedes every other check of [executeProposal]. *)
Theorem deadline_window (keccak256 : list byte -> Z)
    (secp256k1_recover : Z -> Z -> Z -> Z -> option Z)
    (w : Executor.World) (env : Executor.Env) (p : ProposalFields) (signature : list byte) :
  let now := Executor.block_timestamp env in
  let deadline := pf_deadline p in
  0 <= now -> now + 3600 <= uint256_max ->
  (deadline <= now ->
     Executor.executeProposal keccak256 secp256k1_recover w env p signature
     = Rev (Error "Executor: Deadline has passed")) /\
  (deadline = now + 1 ->
     Executor.executeProposal keccak256 secp256k1_recover w env p signature
     = Rev (Error "Executor: Deadline too soon")) /\
  (Executor.validDeadline now deadline = Ok tt <-> now + 300 <= deadline <= now + 3600) /\
  (forall r, Executor.validDeadline now deadline = Rev r ->
     Executor.executeProposal keccak256 secp256k1_recover w env p signature = Rev r).
Proof.
  intros now deadline Hnow Hmax.
  assert (Hspec := validDeadline_spec now deadline).
  unfold Executor.MAX_DEADLINE_DURATION in Hspec. specialize (Hspec Hmax).
  repeat split.
  - intros Hle. apply executeProposal_deadline_first. fold now deadline.
    rewrite Hspec. destruct (Z.leb_spec deadline now); [reflexivity | lia].
  - intros Heq. apply executeProposal_deadline_first. fold now deadline.
    rewrite Hspec.
    destruct (Z.leb_spec deadline now); [lia |].
    destruct (Z.ltb_spec (now + 3600) deadline); [lia |].
    destruct (Z.ltb_spec deadline (now + 300)); [reflexivity | lia].
  - rewrite Hspec in H.
    destruct (Z.leb_spec deadline now); [discriminate |].
    destruct (Z.ltb_spec (now + 3600) deadline); [discriminate |].
    destruct (Z.ltb_spec deadline (now + 300)); [discriminate | lia].
  - rewrite Hspec in H.
    destruct (Z.leb_spec deadline now); [discriminate |].
    destruct (Z.ltb_spec (now + 3600) deadline); [discriminate |].
    destruct (Z.ltb_spec deadline (now + 300)); [discriminate | lia].
  - intros [Hlo Hhi]. rewrite Hspec.
    destruct (Z.leb_spec deadline now); [lia |].
    destruct (Z.ltb_spec (now + 3600) deadline); [lia |].
    destruct (Z.ltb_spec deadline (now + 300)); [lia | reflexivity].
  - intros r Hr. apply executeProposal_deadline_first. exact Hr.
Qed.

Lemma deadline_window_witness :
  let p := Sample.swap Sample.vault_a 100 1000 1 (Sample.now + 1) in
  Executor.executeProposal Sample.keccak256 Sample.secp256k1_recover
    (Sample.world true) Sample.env p (Sample.sign Sample.agent_addr p)
  = Rev (Error "Executor: Deadline too soon").
Proof.
  intros p.
  apply (deadline_window Sample.keccak256 Sample.secp256k1_recover
           (Sample.world true) Sample.env p (Sample.sign Sample.agent_addr p)).
  - vm_compute. discriminate.
  - vm_compute. discriminate.
  - reflexivity.
Defined.

(** A proposal whose deadline is one second ahead is turned down by the
    deadline check, although the same swap with a deadline one hour ahead is
    executed. *)
Lemma deadline_one_second_ahead_rejected :
  Executor.validDeadline 1700000000 1700000001 = Rev (Error "Executor: Deadline too soon") /\
  (let p := Sample.swap Sample.vault_a 100 1000 1 (Sample.now + 3600) in
   Executor.succeeds
     (Executor.executeProposal Sample.keccak256 Sample.secp256k1_recover
        (Sample.world true) Sample.env p (Sample.sign Sample.agent_addr p)) = true) /\
  (let p := Sample.swap Sample.vault_a 100 1000 1 (Sample.now + 1) in
   Executor.executeProposal Sample.keccak256 Sample.secp256k1_recover
     (Sample.world true) Sample.env p (Sample.sign Sample.agent_addr p)
   = Rev (Error "Executor: Deadline too soon")).
Proof. vm_compute. repeat split. Qed.

(** ** The Executor's verification pass *)

Section ExecutorProofs.

Variable keccak256 : list byte -> Z.
Variable secp256k1_recover : Z -> Z -> Z -> Z -> option Z.

Abbreviation executeProposal := (Executor.executeProposal keccak256 secp256k1_recover).
Abbreviation verify_and_mark := (Executor.verify_and_mark keccak256 secp256k1_recover).
Abbreviation check_policy := (Executor.check_policy).
Abbreviation perform_effect := (Executor.perform_effect keccak256).
Abbreviation _verifySignature := (Executor._verifySignature keccak256 secp256k1_recover).
Abbreviation recover_signer := (Executor.recover_signer keccak256 secp256k1_recover).
Abbreviation nonceKey := (Executor.nonceKey keccak256).
Abbreviation isNonceUsed := (Executor.isNonceUsed keccak256).
Abbreviation _getProposalHash := (Executor._getProposalHash keccak256).
Abbreviation body := (Executor.body keccak256 secp256k1_recover).
Abbreviation step := (Executor.step keccak256 secp256k1_recover).
Abbreviation run := (Executor.run keccak256 secp256k1_recover).

Lemma _verifySignature_true (ex : Executor.State) (h : Z) (signature : list byte) :
  _verifySignature ex h signature = Ok true <->
  length signature = 65%nat /\ recover_signer h signature = Executor.agentSigner ex.
Proof.
  unfold Executor._verifySignature.
  destruct (Nat.eqb_spec (length signature) 65) as [Hlen | Hlen]; simpl.
  - destruct (Z.eqb_spec (recover_signer h signature) (Executor.agentSigner ex)).
    + split; [intros _; split; assumption | reflexivity].
    + split; [discriminate | intros [_ ?]; contradiction].
  - split; [discriminate | intros [? _]; contradiction].
Qed.

(** The key under which a nonce is recorded depends on the registered signer
    and the nonce only. *)
Lemma nonceKey_agentSigner (ex ex' : Executor.State) (n : Z) :
  Executor.agentSigner ex = Executor.agentSigner ex' -> nonceKey ex n = nonceKey ex' n.
Proof. unfold Executor.nonceKey. intros ->. reflexivity. Qed.

Lemma nonce_used_mark (ex : Executor.State) (key k : Z) :
  Executor.nonce_used (Executor.mark_nonce ex key) k =
    if decide (key = k) then true else Executor.nonce_used ex k.
Proof.
  unfold Executor.nonce_used, Executor.mark_nonce, mapping_get. simpl.
  rewrite lookup_insert. destruct (decide (key = k)); reflexivity.
Qed.

(** What a successful pass through the checks establishes. *)
Lemma verify_and_mark_Ok (w w1 : Executor.World) (env : Executor.Env)
    (p : ProposalFields) (signature : list byte) :
  verify_and_mark w env p signature = Ok w1 <->
  Executor.validDeadline (Executor.block_timestamp env) (pf_deadline p) = Ok tt /\
  length signature = 65%nat /\
  recover_signer (_getProposalHash p) signature = Executor.agentSigner (Executor.executor w) /\
  Executor.nonce_used (Executor.executor w) (nonceKey (Executor.executor w) (pf_nonce p))
    = false /\
  w1 = Executor.with_executor w
         (Executor.mark_nonce (Executor.executor w)
            (nonceKey (Executor.executor w) (pf_nonce p))).
Proof.
  unfold Executor.verify_and_mark. split.
  - intros H.
    bind_inv H. destruct a.
    bind_inv H. bind_inv H. apply require_Ok in Hstep1. subst a.
    apply _verifySignature_true in Hstep0 as [Hlen Hrec].
    bind_inv H. apply require_Ok, negb_true_iff in Hstep0.
    inversion H; subst w1. repeat split; assumption.
  - intros (Hd & Hlen & Hrec & Hunused & ->).
    rewrite Hd. simpl.
    assert (Hsig : _verifySignature (Executor.executor w) (_getProposalHash p) signature
                   = Ok true) by (apply _verifySignature_true; split; assumption).
    rewrite Hsig. simpl. rewrite Hunused. reflexivity.
Qed.

Lemma perform_effect_executor (w w' : Executor.World) (env : Executor.Env)
    (p : ProposalFields) :
  perform_effect w env p = Ok w' ->
  Executor.executor w' = Executor.executor w /\ Executor.self w' = Executor.self w.
Proof.
  unfold Executor.perform_effect. intros H.
  do 4 bind_inv H. inversion H; subst w'. split; reflexivity.
Qed.

Lemma executeProposal_Ok (w w' : Executor.World) (env : Executor.Env)
    (p : ProposalFields) (signature : list byte) :
  executeProposal w env p signature = Ok w' <->
  exists w1, verify_and_mark w env p signature = Ok w1 /\
             check_policy w1 p = Ok tt /\
             perform_effect w1 env p = Ok w'.
Proof.
  unfold Executor.executeProposal. split.
  - intros H. bind_inv H. bind_inv H. destruct a0.
    exists a. repeat split; assumption.
  - intros (w1 & H1 & H2 & H3). rewrite H1. simpl. rewrite H2. simpl. exact H3.
Qed.

(** After a successful execution the Executor's storage is the old one with
    the proposal's nonce key marked. *)
Lemma executeProposal_executor (w w' : Executor.World) (env : Executor.Env)
    (p : ProposalFields) (signature : list byte) :
  executeProposal w env p signature = Ok w' ->
  Executor.executor w' =
    Executor.mark_nonce (Executor.executor w) (nonceKey (Executor.executor w) (pf_nonce p)).
Proof.
  intros H. apply executeProposal_Ok in H as (w1 & H1 & _ & H3).
  apply perform_effect_executor in H3 as [H3 _].
  apply verify_and_mark_Ok in H1 as (_ & _ & _ & _ & ->). exact H3.
Qed.

(** *** Used nonces are never released *)

Lemma body_keeps_used_nonces (w w' : Executor.World) (env : Executor.Env)
    (c : Executor.call) (k : Z) :
  body w env c = Ok w' ->
  Executor.nonce_used (Executor.executor w) k = true ->
  Executor.nonce_used (Executor.executor w') k = true.
Proof.
  intros Hb Hk. destruct c; simpl in Hb.
  - apply executeProposal_executor in Hb. rewrite Hb, nonce_used_mark.
    destruct (decide _); [reflexivity | exact Hk].
  - unfold Executor.updateAgentSigner in Hb. do 2 bind_inv Hb.
    inversion Hb; subst w'. exact Hk.
  - unfold Executor.updatePolicyManager in Hb. do 2 bind_inv Hb.
    inversion Hb; subst w'. exact Hk.
  - unfold Executor.updateAuditLog in Hb. do 2 bind_inv Hb.
    inversion Hb; subst w'. exact Hk.
  - unfold Executor.emergencyPause in Hb. bind_inv Hb.
    inversion Hb; subst w'. exact Hk.
  - unfold Executor.emergencyUnpause in Hb. do 2 bind_inv Hb.
    inversion Hb; subst w'. exact Hk.
  - inversion Hb; subst w'. exact Hk.
Qed.

Lemma step_keeps_used_nonces (w : Executor.World)
    (tx : Executor.Env * Executor.call) (k : Z) :
  Executor.nonce_used (Executor.executor w) k = true ->
  Executor.nonce_used (Executor.executor (step w tx)) k = true.
Proof.
  intros Hk. unfold Executor.step, transact.
  destruct (body w tx.1 tx.2) as [w' | r] eqn:Hb; [| exact Hk].
  eapply body_keeps_used_nonces; eassumption.
Qed.

Lemma run_keeps_used_nonces
    (txs : list (Executor.Env * Executor.call))
    (w : Executor.World) (k : Z) :
  Executor.nonce_used (Executor.executor w) k = true ->
  Executor.nonce_used (Executor.executor (run w txs)) k = true.
Proof.
  revert w. induction txs as [| tx txs IH]; intros w Hk; simpl; [exact Hk |].
  apply IH, step_keeps_used_nonces, Hk.
Qed.

(** A proposal whose nonce key is marked cannot pass the replay check. *)
Lemma used_nonce_blocks (w : Executor.World) (env : Executor.Env)
    (p : ProposalFields) (signature : list byte) :
  Executor.nonce_used (Executor.executor w) (nonceKey (Executor.executor w) (pf_nonce p))
    = true ->
  Executor.succeeds (executeProposal w env p signature) = false.
Proof.
  intros Hused.
  destruct (executeProposal w env p signature) as [w' | r] eqn:He; [| reflexivity].
  apply executeProposal_Ok in He as (w1 & H1 & _).
  apply verify_and_mark_Ok in H1 as (_ & _ & _ & Hunused & _). congruence.
Qed.

(** With the deadline window met, a valid signature and a marked nonce key,
    the call reverts with the replay reason. *)
Lemma used_nonce_reason (w : Executor.World) (env : Executor.Env)
    (p : ProposalFields) (signature : list byte) :
  Executor.validDeadline (Executor.block_timestamp env) (pf_deadline p) = Ok tt ->
  _verifySignature (Executor.executor w) (_getProposalHash p) signature = Ok true ->
  Executor.nonce_used (Executor.executor w) (nonceKey (Executor.executor w) (pf_nonce p))
    = true ->
  executeProposal w env p signature = Rev (Error "Executor: Nonce already used").
Proof.
  intros Hd Hsig Hused.
  unfold Executor.executeProposal, Executor.verify_and_mark.
  rewrite Hd. simpl. rewrite Hsig. simpl. rewrite Hused. reflexivity.
Qed.

(** C2. If a signed proposal is executed, submitting the identical pair
    again (same block context) is rejected with "Nonce already used", and
    after any further transactions whatsoever, at any later time, the same
    pair is never executed again. *)
Theorem replay_rejected (w w' : Executor.World) (env : Executor.Env)
    (p : ProposalFields) (signature : list byte) :
  executeProposal w env p signature = Ok w' ->
  executeProposal w' env p signature = Rev (Error "Executor: Nonce already used") /\
  forall (txs : list (Executor.Env * Executor.call))
         (env' : Executor.Env),
    Executor.succeeds (executeProposal (run w' txs) env' p signature) = false.
Proof.
  intros Hexec.
  pose proof (executeProposal_executor _ _ _ _ _ Hexec) as Hex.
  apply executeProposal_Ok in Hexec as (w1 & H1 & _ & _).
  apply verify_and_mark_Ok in H1 as (Hd & Hlen & Hrec & _ & _).
  set (key := nonceKey (Executor.executor w) (pf_nonce p)) in *.
  assert (Hmarked : Executor.nonce_used (Executor.executor w') key = true).
  { rewrite Hex, nonce_used_mark. destruct (decide _); [reflexivity | contradiction]. }
  assert (Hsigner : Executor.agentSigner (Executor.executor w')
                    = Executor.agentSigner (Executor.executor w))
    by (rewrite Hex; reflexivity).
  split.
  - apply used_nonce_reason.
    + exact Hd.
    + apply _verifySignature_true. split; [exact Hlen | congruence].
    + rewrite (nonceKey_agentSigner _ (Executor.executor w)) by exact Hsigner.
      exact Hmarked.
  - intros txs env'.
    destruct (executeProposal (run w' txs) env' p signature) as [w'' | r] eqn:He;
      [| reflexivity].
    exfalso.
    apply executeProposal_Ok in He as (w2 & H2 & _).
    apply verify_and_mark_Ok in H2 as (_ & _ & Hrec' & Hunused & _).
    rewrite (nonceKey_agentSigner _ (Executor.executor w)) in Hunused by congruence.
    pose proof (run_keeps_used_nonces txs w' key Hmarked) as Hkept.
    fold key in Hunused. congruence.
Qed.

(** *** C5: the replay key ignores the vault *)

(** C5 (fails on the code). Once a proposal carrying some nonce has been
    executed, a proposal for a different vault that carries the same nonce,
    meets the deadline window and bears a valid signature is rejected with
    "Nonce already used": the key marked is a function of the registered
    signer and the nonce alone. *)
Theorem same_nonce_on_other_vault_rejected (w w' : Executor.World)
    (env env2 : Executor.Env) (p1 p2 : ProposalFields) (sig1 sig2 : list byte) :
  executeProposal w env p1 sig1 = Ok w' ->
  pf_vault p2 <> pf_vault p1 ->
  pf_nonce p2 = pf_nonce p1 ->
  Executor.validDeadline (Executor.block_timestamp env2) (pf_deadline p2) = Ok tt ->
  _verifySignature (Executor.executor w') (_getProposalHash p2) sig2 = Ok true ->
  executeProposal w' env2 p2 sig2 = Rev (Error "Executor: Nonce already used").
Proof.
  intros Hexec _ Hnonce Hd Hsig.
  apply executeProposal_executor in Hexec.
  apply used_nonce_reason; [exact Hd | exact Hsig |].
  rewrite Hexec, nonce_used_mark, Hnonce.
  unfold Executor.nonceKey. simpl.
  destruct (decide _); [reflexivity | contradiction].
Qed.

(** *** C3: the paused Executor *)

Lemma emergencyPause_Ok (w w' : Executor.World) (env : Executor.Env) :
  Executor.emergencyPause w env = Ok w' <->
  Executor.msg_sender env = Executor.owner (Executor.executor w) /\
  w' = Executor.with_executor w (Executor.set_agentSigner (Executor.executor w) 0).
Proof.
  unfold Executor.emergencyPause, Executor.onlyOwner.
  destruct (Z.eqb_spec (Executor.msg_sender env) (Executor.owner (Executor.executor w)));
    simpl.
  - split; [intros [= <-]; split; [assumption | reflexivity] | intros [_ ->]; reflexivity].
  - split; [discriminate | intros [? _]; contradiction].
Qed.

Lemma recover_signer_bad_v (h : Z) (signature : list byte) :
  be_to_Z (take 1 (drop 64 signature)) <> 27 ->
  be_to_Z (take 1 (drop 64 signature)) <> 28 ->
  recover_signer h signature = 0.
Proof.
  intros H27 H28. unfold Executor.recover_signer, Executor.ecrecover.
  destruct (Z.eqb_spec (be_to_Z (take 1 (drop 64 signature))) 27); [contradiction |].
  destruct (Z.eqb_spec (be_to_Z (take 1 (drop 64 signature))) 28); [contradiction |].
  reflexivity.
Qed.

(** C3 (fails on the code). After [emergencyPause] the registered signer is
    [address(0)], and then every 65-byte signature whose recovery byte is
    neither 27 nor 28 passes the signature check for every proposal hash:
    [ecrecover] yields [address(0)] for it, which equals the registered
    signer. *)
Theorem paused_signature_check_passes (w w' : Executor.World) (env : Executor.Env)
    (h : Z) (signature : list byte) :
  Executor.emergencyPause w env = Ok w' ->
  length signature = 65%nat ->
  be_to_Z (take 1 (drop 64 signature)) <> 27 ->
  be_to_Z (take 1 (drop 64 signature)) <> 28 ->
  Executor.agentSigner (Executor.executor w') = 0 /\
  _verifySignature (Executor.executor w') h signature = Ok true.
Proof.
  intros Hp Hlen H27 H28.
  apply emergencyPause_Ok in Hp as [_ ->]. simpl.
  split; [reflexivity |].
  apply _verifySignature_true. split; [exact Hlen |].
  rewrite recover_signer_bad_v by assumption. reflexivity.
Qed.

(** X26. While the Executor is paused (registered signer [address(0)]), a
    proposal inside the deadline window whose 65-byte signature recovers to a
    real, non-zero signer is rejected with "Invalid signature": no key holder
    can act during the pause. *)
Lemma paused_rejects_recovered_signer (w : Executor.World) (env : Executor.Env)
    (p : ProposalFields) (signature : list byte) :
  Executor.agentSigner (Executor.executor w) = 0 ->
  Executor.validDeadline (Executor.block_timestamp env) (pf_deadline p) = Ok tt ->
  length signature = 65%nat ->
  recover_signer (_getProposalHash p) signature <> 0 ->
  executeProposal w env p signature = Rev (Error "Executor: Invalid signature").
Proof.
  intros Hz Hd Hlen Hrec.
  unfold Executor.executeProposal, Executor.verify_and_mark, Executor._verifySignature.
  rewrite Hd, Hlen, Hz. simpl.
  destruct (Z.eqb_spec (recover_signer (_getProposalHash p) signature) 0);
    [contradiction | reflexivity].
Qed.

(** *** C6: the mark and the revert *)

Lemma check_policy_reason (w : Executor.World) (p : ProposalFields) (r : revert) :
  check_policy w p = Rev r -> r <> Error "Executor: Nonce already used".
Proof.
  unfold Executor.check_policy, Executor.contract_at.
  destruct (Executor.policyManagers w !! _) as [pm |]; simpl;
    [| intros [= <-]; discriminate].
  unfold PolicyManager.validateAction, PolicyManager.onlyAuthorizedValidator,
    PolicyManager._validateSwapAction, PolicyManager._validateLendingAction,
    PolicyManager._validateBorrowingAction, abi_decode_address_uint256_uint256,
    abi_decode_uint256_uint256, checked_mul, checked_div, require.
  repeat match goal with
         | |- context [if ?c then _ else _] => destruct c; simpl
         end;
    intros [= <-]; discriminate.
Qed.

Lemma perform_effect_reason (w : Executor.World) (env : Executor.Env)
    (p : ProposalFields) (r : revert) :
  perform_effect w env p = Rev r -> r <> Error "Executor: Nonce already used".
Proof.
  unfold Executor.perform_effect, Executor.contract_at.
  destruct (Executor.vaults w !! _) as [v |]; simpl; [| intros [= <-]; discriminate].
  unfold Vault.executeAction, Vault.onlyAuthorizedExecutor, require.
  destruct (mapping_get false _ _); simpl; [| intros [= <-]; discriminate].
  destruct (Executor.auditLogs w !! _) as [l |]; simpl; [| intros [= <-]; discriminate].
  unfold AuditLog.logExecution, AuditLog.onlyAuthorizedLogger, checked_add, require.
  repeat match goal with
         | |- context [if ?c then _ else _] => destruct c; simpl
         end;
    intros [= <-]; discriminate.
Qed.

(** C6 (as the code has it). The write of [usedNonces] precedes the policy
    dispatch and the effect: both run on a world in which the key is marked.
    But when either of them fails, the transaction reverts as a whole: the
    world is the one before the call, the nonce is unused in it, and the
    same proposal resubmitted fails for the same reason again, which is
    never "Nonce already used". *)
Theorem failed_effect_releases_nonce (w w1 : Executor.World) (env : Executor.Env)
    (p : ProposalFields) (signature : list byte) :
  verify_and_mark w env p signature = Ok w1 ->
  Executor.nonce_used (Executor.executor w1) (nonceKey (Executor.executor w) (pf_nonce p))
    = true /\
  executeProposal w env p signature = (check_policy w1 p;; perform_effect w1 env p) /\
  forall r, executeProposal w env p signature = Rev r ->
    let w2 := step w (env, Executor.ExecuteProposal p signature) in
    w2 = w /\
    isNonceUsed (Executor.executor w2) (pf_nonce p) = false /\
    executeProposal w2 env p signature = Rev r /\
    r <> Error "Executor: Nonce already used".
Proof.
  intros H1.
  assert (Hexec : executeProposal w env p signature
                  = (check_policy w1 p;; perform_effect w1 env p))
    by (unfold Executor.executeProposal; rewrite H1; reflexivity).
  apply verify_and_mark_Ok in H1 as (_ & _ & _ & Hunused & ->).
  split; [| split; [exact Hexec |]].
  - simpl. rewrite nonce_used_mark. destruct (decide _); [reflexivity | contradiction].
  - intros r Hr w2.
    assert (Hw2 : w2 = w).
    { unfold w2, Executor.step, transact. simpl. rewrite Hr. reflexivity. }
    rewrite Hw2. repeat split.
    + exact Hunused.
    + exact Hr.
    + rewrite Hexec in Hr.
      destruct (check_policy _ p) as [[] | r'] eqn:Hc; simpl in Hr.
      * eapply perform_effect_reason. exact Hr.
      * inversion Hr; subst r'. eapply check_policy_reason. exact Hc.
Qed.

(** *** C10: a revert inside [validateAction] is the revert of the call *)

Lemma executeProposal_validateAction_revert (w w1 : Executor.World) (env : Executor.Env)
    (p : ProposalFields) (signature : list byte) (pm : PolicyManager.State) (r : revert) :
  verify_and_mark w env p signature = Ok w1 ->
  Executor.policyManagers w !! Executor.policyManager (Executor.executor w) = Some pm ->
  PolicyManager.validateAction pm (Executor.self w) (pf_vault p) (pf_actionType p)
    (pf_params p) = Rev r ->
  executeProposal w env p signature = Rev r.
Proof.
  intros H1 Hpm Hv. unfold Executor.executeProposal. rewrite H1. simpl.
  apply verify_and_mark_Ok in H1 as (_ & _ & _ & _ & ->).
  unfold Executor.check_policy, Executor.contract_at. simpl.
  rewrite Hpm. simpl. rewrite Hv. reflexivity.
Qed.

(** A rejection returned by [validateAction] becomes the revert reason. *)
Lemma executeProposal_policy_violation (w w1 : Executor.World) (env : Executor.Env)
    (p : ProposalFields) (signature : list byte) (pm : PolicyManager.State)
    (reason : string) :
  verify_and_mark w env p signature = Ok w1 ->
  Executor.policyManagers w !! Executor.policyManager (Executor.executor w) = Some pm ->
  PolicyManager.validateAction pm (Executor.self w) (pf_vault p) (pf_actionType p)
    (pf_params p) = Ok (false, reason) ->
  executeProposal w env p signature = Rev (Error reason).
Proof.
  intros H1 Hpm Hv. unfold Executor.executeProposal. rewrite H1. simpl.
  apply verify_and_mark_Ok in H1 as (_ & _ & _ & _ & ->).
  unfold Executor.check_policy, Executor.contract_at. simpl.
  rewrite Hpm. simpl. rewrite Hv. reflexivity.
Qed.

End ExecutorProofs.


Lemma replay_rejected_witness :
  let p := Sample.swap Sample.vault_a 100 1000 1 (Sample.now + 3600) in
  let sig := Sample.sign Sample.agent_addr p in
  exists w',
    Executor.executeProposal Sample.keccak256 Sample.secp256k1_recover
      (Sample.world true) Sample.env p sig = Ok w' /\
    Executor.executeProposal Sample.keccak256 Sample.secp256k1_recover w' Sample.env p sig
    = Rev (Error "Executor: Nonce already used").
Proof.
  intros p sig.
  destruct (Executor.executeProposal Sample.keccak256 Sample.secp256k1_recover
              (Sample.world true) Sample.env p sig) as [w' | r] eqn:He.
  - exists w'. split; [reflexivity |].
    exact (proj1 (replay_rejected Sample.keccak256 Sample.secp256k1_recover
                    (Sample.world true) w' Sample.env p sig He)).
  - exfalso. apply (f_equal Executor.succeeds) in He. vm_compute in He. discriminate.
Defined.

Lemma same_nonce_on_other_vault_rejected_witness :
  let p1 := Sample.swap Sample.vault_a 100 1000 1 (Sample.now + 3600) in
  let p2 := Sample.swap Sample.vault_b 100 1000 1 (Sample.now + 3600) in
  exists w',
    Executor.executeProposal Sample.keccak256 Sample.secp256k1_recover
      (Sample.world true) Sample.env p1 (Sample.sign Sample.agent_addr p1) = Ok w' /\
    Executor.executeProposal Sample.keccak256 Sample.secp256k1_recover
      w' Sample.env p2 (Sample.sign Sample.agent_addr p2)
    = Rev (Error "Executor: Nonce already used").
Proof.
  intros p1 p2.
  destruct (Executor.executeProposal Sample.keccak256 Sample.secp256k1_recover
              (Sample.world true) Sample.env p1 (Sample.sign Sample.agent_addr p1))
    as [w' | r] eqn:He.
  - exists w'. split; [reflexivity |].
    apply (same_nonce_on_other_vault_rejected Sample.keccak256 Sample.secp256k1_recover
             (Sample.world true) w' Sample.env Sample.env p1 p2
             (Sample.sign Sample.agent_addr p1) (Sample.sign Sample.agent_addr p2) He).
    + vm_compute. discriminate.
    + reflexivity.
    + vm_compute. reflexivity.
    + apply executeProposal_executor in He. rewrite He. vm_compute. reflexivity.
  - exfalso. apply (f_equal Executor.succeeds) in He. vm_compute in He. discriminate.
Defined.

(** The second vault's proposal is valid on its own: submitted first, it is
    executed; and the Signer does hand out nonce 1 for each vault. *)
Example other_vault_proposal_valid_alone :
  (let p2 := Sample.swap Sample.vault_b 100 1000 1 (Sample.now + 3600) in
   Executor.succeeds
     (Executor.executeProposal Sample.keccak256 Sample.secp256k1_recover
        (Sample.world true) Sample.env p2 (Sample.sign Sample.agent_addr p2)) = true) /\
  (let '(n1, tracker) := Signer.getNextNonce ∅ "0x1111" in
   let '(n2, _) := Signer.getNextNonce tracker "0x2222" in
   n1 = 1 /\ n2 = 1).
Proof. split; [vm_compute; reflexivity | vm_compute; split; reflexivity]. Qed.

Lemma paused_signature_check_passes_witness :
  exists w',
    Executor.emergencyPause (Sample.world true) Sample.owner_env = Ok w' /\
    Executor.agentSigner (Executor.executor w') = 0 /\
    Executor._verifySignature Sample.keccak256 Sample.secp256k1_recover
      (Executor.executor w') 12345 (zeros 65) = Ok true.
Proof.
  eexists. split; [reflexivity |].
  apply (paused_signature_check_passes Sample.keccak256 Sample.secp256k1_recover
           (Sample.world true) _ Sample.owner_env 12345 (zeros 65)).
  - reflexivity.
  - reflexivity.
  - vm_compute. discriminate.
  - vm_compute. discriminate.
Defined.

(** On the paused sample Executor a proposal nobody signed (65 zero bytes in
    place of a signature) is executed. *)
Example paused_executor_executes_unsigned_proposal :
  let p := Sample.swap Sample.vault_a 100 1000 1 (Sample.now + 3600) in
  let paused := Executor.step Sample.keccak256 Sample.secp256k1_recover
                  (Sample.world true) (Sample.owner_env, Executor.EmergencyPause) in
  Executor.agentSigner (Executor.executor paused) = 0 /\
  Executor.succeeds
    (Executor.executeProposal Sample.keccak256 Sample.secp256k1_recover
       paused Sample.env p (zeros 65)) = true.
Proof. vm_compute. split; reflexivity. Qed.

Lemma failed_effect_releases_nonce_witness :
  let p := Sample.swap Sample.vault_b 100 1000 1 (Sample.now + 3600) in
  let sig := Sample.sign Sample.agent_addr p in
  let w := Sample.world false in
  Executor.executeProposal Sample.keccak256 Sample.secp256k1_recover w Sample.env p sig
  = Rev (Error "Vault: Unauthorized executor") /\
  Executor.isNonceUsed Sample.keccak256
    (Executor.executor
       (Executor.step Sample.keccak256 Sample.secp256k1_recover w
          (Sample.env, Executor.ExecuteProposal p sig)))
    (pf_nonce p) = false.
Proof.
  intros p sig w.
  assert (Hr : Executor.executeProposal Sample.keccak256 Sample.secp256k1_recover
                 w Sample.env p sig = Rev (Error "Vault: Unauthorized executor"))
    by (vm_compute; reflexivity).
  split; [exact Hr |].
  destruct (Executor.verify_and_mark Sample.keccak256 Sample.secp256k1_recover
              w Sample.env p sig) as [w1 | r] eqn:H1.
  - destruct (failed_effect_releases_nonce Sample.keccak256 Sample.secp256k1_recover
                w w1 Sample.env p sig H1) as (_ & _ & Hfail).
    exact (proj1 (proj2 (Hfail _ Hr))).
  - exfalso. apply (f_equal Executor.succeeds) in H1. vm_compute in H1. discriminate.
Defined.

(** A swap whose vault action fails (the vault has not authorized the
    Executor) reverts; afterwards its nonce is unused, the same pair
    resubmitted fails on the vault again rather than on the nonce, and once
    the vault authorizes the Executor the very same pair is executed. *)
Lemma failed_effect_nonce_not_consumed :
  let p := Sample.swap Sample.vault_b 100 1000 1 (Sample.now + 3600) in
  let sig := Sample.sign Sample.agent_addr p in
  let w := Sample.world false in
  let w2 := Executor.step Sample.keccak256 Sample.secp256k1_recover w
              (Sample.env, Executor.ExecuteProposal p sig) in
  let w3 := Executor.step Sample.keccak256 Sample.secp256k1_recover w2
              (Sample.owner_env,
               Executor.Elsewhere (Executor.policyManagers w2) (Executor.auditLogs w2)
                 (Executor.vaults (Sample.world true))) in
  Executor.executeProposal Sample.keccak256 Sample.secp256k1_recover w Sample.env p sig
  = Rev (Error "Vault: Unauthorized executor") /\
  Executor.isNonceUsed Sample.keccak256 (Executor.executor w2) (pf_nonce p) = false /\
  Executor.executeProposal Sample.keccak256 Sample.secp256k1_recover w2 Sample.env p sig
  = Rev (Error "Vault: Unauthorized executor") /\
  Executor.succeeds
    (Executor.executeProposal Sample.keccak256 Sample.secp256k1_recover w3 Sample.env p sig)
  = true.
Proof. vm_compute. repeat split. Qed.

(** ** PolicyManager *)

Lemma onlyAuthorizedValidator_Ok (st : PolicyManager.State) (sender : Z) (u : unit) :
  PolicyManager.onlyAuthorizedValidator st sender = Ok u <->
  mapping_get false (PolicyManager.authorizedValidators st) sender = true
  \/ sender = PolicyManager.owner st.
Proof.
  unfold PolicyManager.onlyAuthorizedValidator. rewrite require_Ok, orb_true_iff, Z.eqb_eq.
  reflexivity.
Qed.

(** [validateAction] on an existing, active policy is the dispatch on the
    action type. *)
Lemma validateAction_active (st : PolicyManager.State) (sender vault actionType : Z)
    (params : list byte) :
  PolicyManager.onlyAuthorizedValidator st sender = Ok tt ->
  PolicyManager.createdAt (PolicyManager.policy_of st vault) <> 0 ->
  PolicyManager.isActive (PolicyManager.policy_of st vault) = true ->
  PolicyManager.validateAction st sender vault actionType params =
    let policy := PolicyManager.policy_of st vault in
    if actionType =? 0 then PolicyManager._validateSwapAction vault params policy
    else if actionType =? 1 then PolicyManager._validateLendingAction vault params policy
    else if actionType =? 2 then PolicyManager._validateBorrowingAction vault params policy
    else Ok (false, "PolicyManager: Unsupported action type").
Proof.
  intros Hauth Hc Ha. unfold PolicyManager.validateAction.
  rewrite Hauth. simpl. rewrite Ha. simpl.
  destruct (Z.eqb_spec (PolicyManager.createdAt (PolicyManager.policy_of st vault)) 0);
    [contradiction | reflexivity].
Qed.

Lemma _validateSwapAction_spec (vault : Z) (params : list byte)
    (policy : PolicyManager.Policy) (dex t vb : Z) :
  abi_decode_address_uint256_uint256 params = Ok (dex, t, vb) ->
  PolicyManager.dex_allowed dex (PolicyManager.allowedDex policy) = true ->
  t * 100 <= uint256_max -> vb <> 0 ->
  PolicyManager._validateSwapAction vault params policy =
    if t * 100 / vb <=? PolicyManager.maxTradePercent policy then Ok (true, "")
    else Ok (false, "PolicyManager: Trade size exceeds maximum allowed").
Proof.
  intros Hdec Hdex Hmul Hvb. unfold PolicyManager._validateSwapAction.
  rewrite Hdec. simpl. rewrite Hdex. simpl.
  rewrite checked_mul_Ok by exact Hmul. simpl.
  unfold checked_div. destruct (Z.eqb_spec vb 0); [contradiction |]. simpl.
  rewrite Z.gtb_ltb.
  destruct (Z.ltb_spec (PolicyManager.maxTradePercent policy) (t * 100 / vb));
    destruct (Z.leb_spec (t * 100 / vb) (PolicyManager.maxTradePercent policy));
    try lia; reflexivity.
Qed.

(** C4 (as the code has it). For an active policy with cap [m] and an allowed
    venue: a swap whose amount is exactly [m] percent of the balance is
    accepted; the swap one unit above it is rejected ("Trade size exceeds
    maximum allowed") when the balance is at most 100 and accepted otherwise,
    because the percentage is the truncated quotient
    [tradeAmount * 100 / vaultBalance]. *)
Theorem swap_cap_boundary (st : PolicyManager.State) (sender vault : Z)
    (params params1 : list byte) (dex t vb : Z) :
  let policy := PolicyManager.policy_of st vault in
  let m := PolicyManager.maxTradePercent policy in
  PolicyManager.onlyAuthorizedValidator st sender = Ok tt ->
  PolicyManager.createdAt policy <> 0 ->
  PolicyManager.isActive policy = true ->
  PolicyManager.dex_allowed dex (PolicyManager.allowedDex policy) = true ->
  abi_decode_address_uint256_uint256 params = Ok (dex, t, vb) ->
  abi_decode_address_uint256_uint256 params1 = Ok (dex, t + 1, vb) ->
  0 <= t -> 0 < vb -> (t + 1) * 100 <= uint256_max ->
  t * 100 = m * vb ->
  PolicyManager.validateAction st sender vault 0 params = Ok (true, "") /\
  PolicyManager.validateAction st sender vault 0 params1 =
    if vb <=? 100 then Ok (false, "PolicyManager: Trade size exceeds maximum allowed")
    else Ok (true, "").
Proof.
  intros policy m Hauth Hc Ha Hdex Hdec Hdec1 Ht Hvb Hmax Hcap.
  rewrite !validateAction_active by assumption. simpl. fold policy.
  rewrite (_validateSwapAction_spec vault params policy dex t vb) by (assumption || lia).
  rewrite (_validateSwapAction_spec vault params1 policy dex (t + 1) vb)
    by (assumption || lia).
  fold m.
  assert (Hq : t * 100 / vb = m) by (rewrite Hcap; apply Z.div_mul; lia).
  assert (Hq1 : (t + 1) * 100 / vb = m + 100 / vb).
  { replace ((t + 1) * 100) with (m * vb + 100) by lia.
    rewrite Z.add_comm, Z.div_add by lia. lia. }
  rewrite Hq, Hq1. split.
  - destruct (Z.leb_spec m m); [reflexivity | lia].
  - destruct (Z.leb_spec vb 100) as [Hsmall | Hbig].
    + assert (1 <= 100 / vb) by (apply Z.div_le_lower_bound; lia).
      destruct (Z.leb_spec (m + 100 / vb) m); [lia | reflexivity].
    + rewrite Z.div_small by lia.
      destruct (Z.leb_spec (m + 0) m); [reflexivity | lia].
Qed.

Lemma swap_cap_boundary_witness :
  PolicyManager.validateAction Sample.pm Sample.executor_addr Sample.vault_a 0
    (abi_encode_address_uint256_uint256 Sample.dex_addr 5 50) = Ok (true, "") /\
  PolicyManager.validateAction Sample.pm Sample.executor_addr Sample.vault_a 0
    (abi_encode_address_uint256_uint256 Sample.dex_addr 6 50)
  = Ok (false, "PolicyManager: Trade size exceeds maximum allowed").
Proof.
  apply (swap_cap_boundary Sample.pm Sample.executor_addr Sample.vault_a
           (abi_encode_address_uint256_uint256 Sample.dex_addr 5 50)
           (abi_encode_address_uint256_uint256 Sample.dex_addr 6 50)
           Sample.dex_addr 5 50).
  - reflexivity.
  - vm_compute. discriminate.
  - reflexivity.
  - reflexivity.
  - vm_compute. reflexivity.
  - vm_compute. reflexivity.
  - lia.
  - lia.
  - vm_compute. discriminate.
  - vm_compute. reflexivity.
Defined.

(** With cap 10 and balance 1000 the swap of 100 sits exactly at the cap and
    is accepted, and so is the swap of 101, one unit above it. *)
Lemma one_unit_above_cap_accepted :
  PolicyManager.validateAction Sample.pm Sample.executor_addr Sample.vault_a 0
    (abi_encode_address_uint256_uint256 Sample.dex_addr 100 1000) = Ok (true, "") /\
  PolicyManager.validateAction Sample.pm Sample.executor_addr Sample.vault_a 0
    (abi_encode_address_uint256_uint256 Sample.dex_addr 101 1000) = Ok (true, "").
Proof. vm_compute. split; reflexivity. Qed.

(** *** C10: division by a zero balance *)

Lemma _validateLendingAction_zero_balance (vault : Z) (params : list byte)
    (policy : PolicyManager.Policy) (amount : Z) :
  abi_decode_uint256_uint256 params = Ok (amount, 0) ->
  amount * 100 <= uint256_max ->
  PolicyManager._validateLendingAction vault params policy = Rev (Panic 18) /\
  PolicyManager._validateBorrowingAction vault params policy = Rev (Panic 18).
Proof.
  intros Hdec Hmul.
  unfold PolicyManager._validateLendingAction, PolicyManager._validateBorrowingAction.
  rewrite Hdec. simpl. rewrite checked_mul_Ok by exact Hmul. split; reflexivity.
Qed.

Lemma _validateSwapAction_zero_balance (vault : Z) (params : list byte)
    (policy : PolicyManager.Policy) (dex amount : Z) :
  abi_decode_address_uint256_uint256 params = Ok (dex, amount, 0) ->
  PolicyManager.dex_allowed dex (PolicyManager.allowedDex policy) = true ->
  amount * 100 <= uint256_max ->
  PolicyManager._validateSwapAction vault params policy = Rev (Panic 18).
Proof.
  intros Hdec Hdex Hmul. unfold PolicyManager._validateSwapAction.
  rewrite Hdec. simpl. rewrite Hdex. simpl.
  rewrite checked_mul_Ok by exact Hmul. reflexivity.
Qed.

(** C10. On an active policy, [validateAction] does not return a rejection
    but aborts with the division-by-zero panic (0x12) for a Lend or Borrow
    whose decoded vault balance is 0, and for a Swap through an allowed venue
    whose decoded vault balance is 0; an [executeProposal] that has passed the
    deadline, signature and replay checks with such parameters reverts with
    that panic instead of a policy reason. *)
Theorem validateAction_zero_balance_panics (st : PolicyManager.State)
    (sender vault actionType : Z) (params : list byte) :
  let policy := PolicyManager.policy_of st vault in
  PolicyManager.onlyAuthorizedValidator st sender = Ok tt ->
  PolicyManager.createdAt policy <> 0 ->
  PolicyManager.isActive policy = true ->
  (actionType = 0 /\
   exists dex amount,
     abi_decode_address_uint256_uint256 params = Ok (dex, amount, 0) /\
     PolicyManager.dex_allowed dex (PolicyManager.allowedDex policy) = true /\
     amount * 100 <= uint256_max)
  \/ ((actionType = 1 \/ actionType = 2) /\
      exists amount,
        abi_decode_uint256_uint256 params = Ok (amount, 0) /\
        amount * 100 <= uint256_max) ->
  PolicyManager.validateAction st sender vault actionType params = Rev (Panic 18) /\
  forall keccak256 secp256k1_recover (w w1 : Executor.World) (env : Executor.Env)
         (p : ProposalFields) (signature : list byte),
    Executor.verify_and_mark keccak256 secp256k1_recover w env p signature = Ok w1 ->
    Executor.policyManagers w !! Executor.policyManager (Executor.executor w) = Some st ->
    Executor.self w = sender ->
    pf_vault p = vault -> pf_actionType p = actionType -> pf_params p = params ->
    Executor.executeProposal keccak256 secp256k1_recover w env p signature
    = Rev (Panic 18).
Proof.
  intros policy Hauth Hc Ha Hcase.
  assert (Hpanic : PolicyManager.validateAction st sender vault actionType params
                   = Rev (Panic 18)).
  { rewrite validateAction_active by assumption. simpl. fold policy.
    destruct Hcase as [[-> (dex & amount & Hdec & Hdex & Hmul)]
                      | [Hty (amount & Hdec & Hmul)]].
    - simpl. eapply _validateSwapAction_zero_balance; eassumption.
    - destruct (_validateLendingAction_zero_balance vault params policy amount Hdec Hmul)
        as [Hl Hb].
      destruct Hty as [-> | ->]; simpl; assumption. }
  split; [exact Hpanic |].
  intros k rec w w1 env p signature H1 Hpm Hself Hv Hty Hps.
  eapply executeProposal_validateAction_revert; [exact H1 | exact Hpm |].
  rewrite Hself, Hv, Hty, Hps. exact Hpanic.
Qed.

Lemma validateAction_zero_balance_panics_witness :
  PolicyManager.validateAction Sample.pm Sample.executor_addr Sample.vault_a 1
    (abi_encode_uint256_uint256 100 0) = Rev (Panic 18).
Proof.
  apply (validateAction_zero_balance_panics Sample.pm Sample.executor_addr Sample.vault_a 1
           (abi_encode_uint256_uint256 100 0)).
  - reflexivity.
  - vm_compute. discriminate.
  - reflexivity.
  - right. split; [left; reflexivity |].
    exists 100. split; [vm_compute; reflexivity | vm_compute; discriminate].
Defined.

(** The three action types on the sample world: the signed proposal reverts
    with the panic, not with a policy reason. *)
Example zero_balance_proposals_panic :
  (let p := Sample.swap Sample.vault_a 100 0 1 (Sample.now + 3600) in
   Executor.executeProposal Sample.keccak256 Sample.secp256k1_recover
     (Sample.world true) Sample.env p (Sample.sign Sample.agent_addr p) = Rev (Panic 18)) /\
  (let p := Sample.lend Sample.vault_a 100 0 1 (Sample.now + 3600) in
   Executor.executeProposal Sample.keccak256 Sample.secp256k1_recover
     (Sample.world true) Sample.env p (Sample.sign Sample.agent_addr p) = Rev (Panic 18)).
Proof. vm_compute. split; reflexivity. Qed.

(** *** C8: setPolicy overwrites the vault's single slot *)

Lemma push_allowedDex_Ok (allowedDex stored dex : list Z) :
  PolicyManager.push_allowedDex stored allowedDex = Ok dex ->
  dex = stored ++ allowedDex /\ Forall (fun d => d <> 0) allowedDex.
Proof.
  revert stored. induction allowedDex as [| d rest IH]; intros stored H; simpl in H.
  - inversion H; subst. rewrite app_nil_r. split; [reflexivity | constructor].
  - bind_inv H. apply require_Ok, negb_true_iff, Z.eqb_neq in Hstep.
    apply IH in H as [-> Hall]. rewrite <- app_assoc. split; [reflexivity |].
    constructor; assumption.
Qed.

Lemma push_allowedDex_nonzero (allowedDex stored : list Z) :
  Forall (fun d => d <> 0) allowedDex ->
  PolicyManager.push_allowedDex stored allowedDex = Ok (stored ++ allowedDex).
Proof.
  revert stored. induction allowedDex as [| d rest IH]; intros stored Hall; simpl.
  - rewrite app_nil_r. reflexivity.
  - inversion Hall as [| ? ? Hd Hrest]; subst.
    destruct (Z.eqb_spec d 0); [contradiction |]. simpl.
    rewrite IH by assumption. rewrite <- app_assoc. reflexivity.
Qed.

Lemma setPolicy_Ok (st st' : PolicyManager.State) (sender now vault rt mtp et : Z)
    (dex : list Z) :
  PolicyManager.setPolicy st sender now vault rt mtp et dex = Ok st' ->
  sender = PolicyManager.owner st /\
  rt <= 100 /\ mtp <= 100 /\ et <= 100 /\ vault <> 0 /\ dex <> [] /\
  Forall (fun d => d <> 0) dex /\
  st' = {| PolicyManager.owner := PolicyManager.owner st;
           PolicyManager.vaultPolicies :=
             <[vault :=
                 {| PolicyManager.riskTolerance := rt;
                    PolicyManager.maxTradePercent := mtp;
                    PolicyManager.emergencyThreshold := et;
                    PolicyManager.allowedDex := dex;
                    PolicyManager.isActive := true;
                    PolicyManager.createdAt :=
                      if PolicyManager.createdAt (PolicyManager.policy_of st vault) >? 0
                      then PolicyManager.createdAt (PolicyManager.policy_of st vault)
                      else now;
                    PolicyManager.updatedAt := now |}]>
               (PolicyManager.vaultPolicies st);
           PolicyManager.authorizedValidators := PolicyManager.authorizedValidators st |}.
Proof.
  unfold PolicyManager.setPolicy, PolicyManager.onlyOwner,
    PolicyManager.MAX_RISK_TOLERANCE, PolicyManager.MAX_TRADE_PERCENT,
    PolicyManager.MAX_EMERGENCY_THRESHOLD.
  intros H.
  bind_inv H. apply require_Ok, Z.eqb_eq in Hstep.
  bind_inv H. apply require_Ok, Z.leb_le in Hstep0.
  bind_inv H. apply require_Ok, Z.leb_le in Hstep1.
  bind_inv H. apply require_Ok, Z.leb_le in Hstep2.
  bind_inv H. apply require_Ok, negb_true_iff, Z.eqb_neq in Hstep3.
  bind_inv H. apply require_Ok, Nat.ltb_lt in Hstep4.
  bind_inv H. apply push_allowedDex_Ok in Hstep5 as [-> Hall]. simpl in H.
  inversion H; subst st'.
  repeat split; try assumption.
  intros ->. simpl in Hstep4. lia.
Qed.

Lemma policy_of_insert (o : Z) (av : gmap Z bool) (m : gmap Z PolicyManager.Policy)
    (vault v : Z) (pol : PolicyManager.Policy) :
  PolicyManager.policy_of
    {| PolicyManager.owner := o;
       PolicyManager.vaultPolicies := <[vault := pol]> m;
       PolicyManager.authorizedValidators := av |} v
  = if decide (vault = v) then pol else mapping_get PolicyManager.zero_policy m v.
Proof.
  unfold PolicyManager.policy_of, mapping_get. simpl. rewrite lookup_insert.
  destruct (decide (vault = v)); reflexivity.
Qed.

(** C8 (as the code has it). After two successful [setPolicy] calls for one
    vault, the vault's slot holds the second call's values, is active, keeps
    the creation time set at the first write and carries the second call's
    time as update time; no other vault's slot changes and the only key added
    to the mapping is the vault itself: the first call's values are
    overwritten, the contract keeps neither a version number nor a history. *)
Theorem setPolicy_twice_overwrites (st st1 st2 : PolicyManager.State)
    (sender1 sender2 now1 now2 vault rt1 mtp1 et1 rt2 mtp2 et2 : Z) (dex1 dex2 : list Z) :
  PolicyManager.setPolicy st sender1 now1 vault rt1 mtp1 et1 dex1 = Ok st1 ->
  PolicyManager.setPolicy st1 sender2 now2 vault rt2 mtp2 et2 dex2 = Ok st2 ->
  0 < now1 ->
  PolicyManager.getPolicy st2 vault =
    {| PolicyManager.riskTolerance := rt2;
       PolicyManager.maxTradePercent := mtp2;
       PolicyManager.emergencyThreshold := et2;
       PolicyManager.allowedDex := dex2;
       PolicyManager.isActive := true;
       PolicyManager.createdAt := PolicyManager.createdAt (PolicyManager.getPolicy st1 vault);
       PolicyManager.updatedAt := now2 |} /\
  PolicyManager.hasActivePolicy st2 vault = true /\
  (forall v, v <> vault -> PolicyManager.getPolicy st2 v = PolicyManager.getPolicy st v) /\
  dom (PolicyManager.vaultPolicies st2) = {[vault]} ∪ dom (PolicyManager.vaultPolicies st).
Proof.
  intros H1 H2 Hnow.
  apply setPolicy_Ok in H1 as (_ & _ & _ & _ & _ & _ & _ & ->).
  apply setPolicy_Ok in H2 as (_ & _ & _ & _ & _ & _ & _ & ->).
  unfold PolicyManager.getPolicy, PolicyManager.hasActivePolicy.
  rewrite !policy_of_insert.
  destruct (decide (vault = vault)) as [_ | ?]; [| contradiction]. simpl.
  set (c0 := PolicyManager.createdAt (PolicyManager.policy_of st vault)).
  assert (Hc1 : ((if c0 >? 0 then c0 else now1) >? 0) = true).
  { rewrite !Z.gtb_ltb. destruct (Z.ltb_spec 0 c0); apply Z.ltb_lt; lia. }
  rewrite Hc1. cbv iota. rewrite Hc1.
  split; [reflexivity |]. split; [reflexivity |]. split.
  - intros v Hv. rewrite !policy_of_insert.
    destruct (decide (vault = v)); [congruence |].
    unfold PolicyManager.policy_of, mapping_get.
    rewrite lookup_insert_ne by assumption. reflexivity.
  - rewrite !dom_insert_L, union_assoc_L, union_idemp_L. reflexivity.
Qed.

Lemma setPolicy_twice_overwrites_witness :
  let st0 := {| PolicyManager.owner := 1; PolicyManager.vaultPolicies := ∅;
                PolicyManager.authorizedValidators := ∅ |} in
  let st1 := transact st0 (PolicyManager.setPolicy st0 1 1000 112 50 10 90 [13]) in
  let st2 := transact st1 (PolicyManager.setPolicy st1 1 2000 112 60 20 95 [14]) in
  PolicyManager.setPolicy st0 1 1000 112 50 10 90 [13] = Ok st1 /\
  PolicyManager.setPolicy st1 1 2000 112 60 20 95 [14] = Ok st2 /\
  PolicyManager.getPolicy st2 112 =
    {| PolicyManager.riskTolerance := 60; PolicyManager.maxTradePercent := 20;
       PolicyManager.emergencyThreshold := 95; PolicyManager.allowedDex := [14];
       PolicyManager.isActive := true; PolicyManager.createdAt := 1000;
       PolicyManager.updatedAt := 2000 |}.
Proof.
  intros st0 st1 st2.
  assert (H1 : PolicyManager.setPolicy st0 1 1000 112 50 10 90 [13] = Ok st1)
    by (vm_compute; reflexivity).
  assert (H2 : PolicyManager.setPolicy st1 1 2000 112 60 20 95 [14] = Ok st2)
    by (vm_compute; reflexivity).
  split; [exact H1 |]. split; [exact H2 |].
  assert (Hnow : 0 < 1000) by lia.
  exact (proj1 (setPolicy_twice_overwrites st0 st1 st2 1 1 1000 2000 112 50 10 90 60 20 95
                  [13] [14] H1 H2 Hnow)).
Defined.

(** After two [setPolicy] calls for one vault the whole policy storage is a
    single record, the second one; no record with [isActive = false] and no
    trace of the first call's values is kept. *)
Lemma setPolicy_keeps_no_prior_version :
  let st0 := {| PolicyManager.owner := 1; PolicyManager.vaultPolicies := ∅;
                PolicyManager.authorizedValidators := ∅ |} in
  let st1 := transact st0 (PolicyManager.setPolicy st0 1 1000 112 50 10 90 [13]) in
  let st2 := transact st1 (PolicyManager.setPolicy st1 1 2000 112 60 20 95 [14]) in
  PolicyManager.setPolicy st0 1 1000 112 50 10 90 [13] = Ok st1 /\
  PolicyManager.setPolicy st1 1 2000 112 60 20 95 [14] = Ok st2 /\
  PolicyManager.vaultPolicies st2 =
    {[ 112 := {| PolicyManager.riskTolerance := 60; PolicyManager.maxTradePercent := 20;
                 PolicyManager.emergencyThreshold := 95; PolicyManager.allowedDex := [14];
                 PolicyManager.isActive := true; PolicyManager.createdAt := 1000;
                 PolicyManager.updatedAt := 2000 |} ]} /\
  ~ (exists v pol, PolicyManager.vaultPolicies st2 !! v = Some pol /\
                   PolicyManager.isActive pol = false).
Proof.
  intros st0 st1 st2.
  assert (Hm : PolicyManager.vaultPolicies st2 =
    {[ 112 := {| PolicyManager.riskTolerance := 60; PolicyManager.maxTradePercent := 20;
                 PolicyManager.emergencyThreshold := 95; PolicyManager.allowedDex := [14];
                 PolicyManager.isActive := true; PolicyManager.createdAt := 1000;
                 PolicyManager.updatedAt := 2000 |} ]})
    by (vm_compute; reflexivity).
  split; [vm_compute; reflexivity |].
  split; [vm_compute; reflexivity |].
  split; [exact Hm |].
  intros (v & pol & Hl & Hinactive).
  rewrite Hm in Hl. apply lookup_singleton_Some in Hl as [_ <-]. discriminate.
Qed.

(** ** Signer *)

(** C9 (as the code has it). [createProposal] stamps
    [deadline = floor(now / 1000) + deadlineOffset] for whatever offset the
    caller passes, with no bound, rejection or clipping, and takes the vault's
    next nonce. Bounds are only looked at by the separate [validateProposal],
    which answers [false] unless the deadline lies after now and at most 24
    hours ahead. *)
Theorem createProposal_deadline_unbounded (nonceTracker : gmap string Z) (now_ms : Z)
    (vaultAddress : string) (actionType : Z) (params ipfsHash : string)
    (deadlineOffset : Z) :
  let created :=
    Signer.createProposal nonceTracker now_ms vaultAddress actionType params ipfsHash
      deadlineOffset in
  Signer.deadline created.1 = now_ms / 1000 + deadlineOffset /\
  Signer.nonce created.1 = Signer.getCurrentNonce nonceTracker vaultAddress + 1 /\
  Signer.getCurrentNonce created.2 vaultAddress = Signer.nonce created.1 /\
  forall (isAddress : string -> bool) (check_ms : Z),
    Signer.validateProposal isAddress check_ms created.1 = true ->
    check_ms / 1000 < Signer.deadline created.1 <= check_ms / 1000 + 86400.
Proof.
  unfold Signer.createProposal, Signer.getNextNonce, Signer.getCurrentNonce. simpl.
  split; [reflexivity |]. split; [reflexivity |].
  split; [rewrite lookup_insert_eq; reflexivity |].
  intros isAddress check_ms. unfold Signer.validateProposal. simpl. intros H.
  repeat match type of H with
         | context [if ?c then false else _] => destruct c eqn:?; [discriminate H |]
         end.
  repeat match goal with
         | E : (_ <=? _) = false |- _ => apply Z.leb_gt in E
         | E : (_ >? _) = false |- _ => rewrite Z.gtb_ltb in E; apply Z.ltb_ge in E
         end.
  lia.
Qed.

Lemma createProposal_deadline_unbounded_witness :
  let created :=
    Signer.createProposal ∅ 1700000000000 "0x1111" 0 "0x00"
      "0x0000000000000000000000000000000000000000000000000000000000000007" 1000000000 in
  Signer.deadline created.1 = 1700000000000 / 1000 + 1000000000.
Proof.
  exact (proj1 (createProposal_deadline_unbounded ∅ 1700000000000 "0x1111" 0 "0x00"
                  "0x0000000000000000000000000000000000000000000000000000000000000007"
                  1000000000)).
Defined.

(** An offset of a billion seconds is taken as it is: the proposal's deadline
    lies far beyond the 24 hours of [validateProposal] and beyond the hour of
    the Executor, and a negative offset gives a deadline in the past. *)
Lemma createProposal_offset_out_of_every_window :
  let far :=
    (Signer.createProposal ∅ 1700000000000 "0x1111" 0 "0x00"
       "0x0000000000000000000000000000000000000000000000000000000000000007"
       1000000000).1 in
  let past :=
    (Signer.createProposal ∅ 1700000000000 "0x1111" 0 "0x00"
       "0x0000000000000000000000000000000000000000000000000000000000000007" (-5)).1 in
  Signer.deadline far = 2700000000 /\
  Signer.validateProposal (fun _ => true) 1700000000000 far = false /\
  Executor.validDeadline 1700000000 (Signer.deadline far)
  = Rev (Error "Executor: Deadline too far") /\
  Signer.deadline past = 1699999995 /\
  Signer.validateProposal (fun _ => true) 1700000000000 past = false.
Proof. vm_compute. repeat split. Qed.


(** * Further properties of the modelled code *)

(** ** Big-endian words and the ABI helpers *)

Lemma Z_of_byte_range (b : byte) : 0 <= Z_of_byte b < 256.
Proof.
  unfold Z_of_byte. pose proof (Byte.to_N_bounded b) as Hb. lia.
Qed.

Lemma Z_of_byte_of_Z (z : Z) : Z_of_byte (byte_of_Z z) = z mod 256.
Proof.
  unfold Z_of_byte, byte_of_Z.
  assert (Hr : 0 <= z mod 256 < 256) by (apply Z.mod_pos_bound; lia).
  destruct (Byte.of_N (Z.to_N (z mod 256))) as [b |] eqn:Hb; simpl.
  - apply Byte.to_of_N in Hb. rewrite Hb. lia.
  - apply Byte.of_N_None_iff in Hb. lia.
Qed.

Lemma be_to_Z_acc (bs : list byte) (acc : Z) :
  fold_left (fun a b => a * 256 + Z_of_byte b) bs acc
  = acc * 256 ^ Z.of_nat (length bs) + be_to_Z bs.
Proof.
  unfold be_to_Z. revert acc. induction bs as [| b bs IH]; intros acc.
  - simpl. lia.
  - cbn [fold_left length]. rewrite IH, (IH (0 * 256 + Z_of_byte b)).
    rewrite Nat2Z.inj_succ, Z.pow_succ_r by lia. lia.
Qed.

Lemma be_to_Z_cons (b : byte) (bs : list byte) :
  be_to_Z (b :: bs) = Z_of_byte b * 256 ^ Z.of_nat (length bs) + be_to_Z bs.
Proof. unfold be_to_Z at 1. cbn [fold_left]. rewrite be_to_Z_acc. lia. Qed.

Lemma be_to_Z_range (bs : list byte) : 0 <= be_to_Z bs < 256 ^ Z.of_nat (length bs).
Proof.
  induction bs as [| b bs IH].
  - unfold be_to_Z. simpl. lia.
  - rewrite be_to_Z_cons. cbn [length]. rewrite Nat2Z.inj_succ, Z.pow_succ_r by lia.
    pose proof (Z_of_byte_range b). nia.
Qed.

(** Writing a number on [n] bytes and reading it back keeps its [n] low-order
    bytes. *)
Lemma be_to_Z_be_bytes (n : nat) (z : Z) :
  be_to_Z (be_bytes n z) = z mod 256 ^ Z.of_nat n.
Proof.
  induction n as [| k IH].
  - unfold be_to_Z. simpl. rewrite Z.mod_1_r. reflexivity.
  - cbn [be_bytes]. rewrite be_to_Z_cons, length_be_bytes, IH, Z_of_byte_of_Z.
    rewrite Nat2Z.inj_succ, Z.pow_succ_r by lia.
    rewrite (Z.mul_comm 256), Z.rem_mul_r by lia. lia.
Qed.

Lemma be_to_Z_be_bytes_small (n : nat) (z : Z) :
  0 <= z < 256 ^ Z.of_nat n -> be_to_Z (be_bytes n z) = z.
Proof. intros H. rewrite be_to_Z_be_bytes. apply Z.mod_small, H. Qed.

Lemma be_bytes_inj (n : nat) (x y : Z) :
  0 <= x < 256 ^ Z.of_nat n -> 0 <= y < 256 ^ Z.of_nat n ->
  be_bytes n x = be_bytes n y -> x = y.
Proof.
  intros Hx Hy Heq. apply (f_equal be_to_Z) in Heq.
  rewrite !be_to_Z_be_bytes_small in Heq by assumption. exact Heq.
Qed.

Lemma app_inj_length {A : Type} (l1 l2 k1 k2 : list A) :
  length l1 = length l2 -> l1 ++ k1 = l2 ++ k2 -> l1 = l2 /\ k1 = k2.
Proof. intros Hlen Heq. apply app_inj_1; assumption. Qed.

Lemma abi_word_0 (w rest : list byte) :
  length w = 32%nat -> abi_word 0 (w ++ rest) = be_to_Z w.
Proof.
  intros Hw. unfold abi_word. rewrite Nat.mul_0_r, drop_0.
  rewrite take_app_length' by (symmetry; exact Hw). reflexivity.
Qed.

Lemma abi_word_0_exact (w : list byte) :
  length w = 32%nat -> abi_word 0 w = be_to_Z w.
Proof.
  intros Hw. rewrite <- (app_nil_r w) at 1. apply abi_word_0, Hw.
Qed.

Lemma abi_word_S (i : nat) (w rest : list byte) :
  length w = 32%nat -> abi_word (S i) (w ++ rest) = abi_word i rest.
Proof.
  intros Hw. unfold abi_word.
  replace (32 * S i)%nat with (length w + 32 * i)%nat by lia.
  rewrite drop_app_add. reflexivity.
Qed.

(** X1. [abi.decode] undoes [abi.encode] on swap parameters: for an address
    below 2^160 and two uint256 values, decoding the 96 encoded bytes gives
    the three values back. *)
Theorem abi_decode_encode_swap_params (a x y : Z) :
  0 <= a < 2 ^ 160 -> 0 <= x <= uint256_max -> 0 <= y <= uint256_max ->
  abi_decode_address_uint256_uint256 (abi_encode_address_uint256_uint256 a x y)
  = Ok (a, x, y).
Proof.
  intros Ha Hx Hy. unfold uint256_max in *.
  unfold abi_decode_address_uint256_uint256, abi_encode_address_uint256_uint256.
  rewrite !length_app, !length_be_bytes. simpl (_ <? _)%nat. cbv iota.
  rewrite abi_word_0, !abi_word_S, abi_word_0, abi_word_0_exact by apply length_be_bytes.
  rewrite !be_to_Z_be_bytes_small.
  - destruct (Z.leb_spec (2 ^ 160) a); [lia | reflexivity].
  - change (256 ^ Z.of_nat 32) with (2 ^ 256). lia.
  - change (256 ^ Z.of_nat 32) with (2 ^ 256). lia.
  - change (256 ^ Z.of_nat 32) with (2 ^ 256). lia.
Qed.

Lemma abi_decode_encode_swap_params_witness :
  abi_decode_address_uint256_uint256 (abi_encode_address_uint256_uint256 13 100 1000)
  = Ok (13, 100, 1000).
Proof.
  apply abi_decode_encode_swap_params.
  - split; [lia | reflexivity].
  - split; [lia | vm_compute; discriminate].
  - split; [lia | vm_compute; discriminate].
Defined.

(** Swap parameters shorter than three words, or whose first word does not
    fit an address, are not decoded: the call reverts without data. *)
Lemma abi_decode_swap_params_malformed (bs : list byte) :
  (length bs < 96)%nat \/ 2 ^ 160 <= abi_word 0 bs ->
  abi_decode_address_uint256_uint256 bs = Rev RevertEmpty.
Proof.
  intros [Hshort | Hdirty]; unfold abi_decode_address_uint256_uint256.
  - destruct (Nat.ltb_spec (length bs) 96); [reflexivity | lia].
  - destruct (length bs <? 96)%nat; [reflexivity |].
    destruct (Z.leb_spec (2 ^ 160) (abi_word 0 bs)); [reflexivity | lia].
Qed.

Lemma abi_decode_swap_params_malformed_witness :
  abi_decode_address_uint256_uint256 [] = Rev RevertEmpty.
Proof.
  apply abi_decode_swap_params_malformed. left. simpl. lia.
Defined.

(** ** The packed encoding binds all six fields *)

(** X2. [abi.encodePacked] of the six fields is injective on well-typed
    proposals: two proposals with the same packed bytes are the same
    proposal, so the hash the Executor verifies covers every field. *)
Theorem abi_encodePacked_injective (p q : ProposalFields) :
  proposal_in_range p -> proposal_in_range q ->
  Codec.abi_encodePacked p = Codec.abi_encodePacked q -> p = q.
Proof.
  intros (Hv & Ha & Hh & Hn & Hd) (Hv' & Ha' & Hh' & Hn' & Hd') Heq.
  unfold Codec.abi_encodePacked in Heq.
  apply app_inj_length in Heq as [Hvault Heq]; [| rewrite !length_be_bytes; reflexivity].
  apply app_inj_length in Heq as [Haction Heq]; [| rewrite !length_be_bytes; reflexivity].
  assert (Hlen : length (pf_params p) = length (pf_params q)).
  { apply (f_equal (@length byte)) in Heq.
    rewrite !length_app, !length_be_bytes in Heq. lia. }
  apply app_inj_length in Heq as [Hparams Heq]; [| exact Hlen].
  apply app_inj_length in Heq as [Hhash Heq]; [| rewrite !length_be_bytes; reflexivity].
  apply app_inj_length in Heq as [Hnonce Hdeadline];
    [| rewrite !length_be_bytes; reflexivity].
  apply be_bytes_inj in Hvault;
    [| change (256 ^ Z.of_nat 20) with (2 ^ 160); lia ..].
  apply be_bytes_inj in Haction;
    [| change (256 ^ Z.of_nat 1) with (2 ^ 8); lia ..].
  apply be_bytes_inj in Hhash;
    [| change (256 ^ Z.of_nat 32) with (2 ^ 256); lia ..].
  apply be_bytes_inj in Hnonce;
    [| change (256 ^ Z.of_nat 32) with (2 ^ 256); lia ..].
  apply be_bytes_inj in Hdeadline;
    [| change (256 ^ Z.of_nat 32) with (2 ^ 256); lia ..].
  destruct p, q. simpl in *. congruence.
Qed.

Lemma abi_encodePacked_injective_witness :
  let p := Sample.swap Sample.vault_a 100 1000 1 (Sample.now + 3600) in
  proposal_in_range p /\ (Codec.abi_encodePacked p = Codec.abi_encodePacked p -> p = p).
Proof.
  intros p.
  assert (Hr : proposal_in_range p) by (vm_compute; intuition discriminate).
  split; [exact Hr |].
  exact (abi_encodePacked_injective p p Hr Hr).
Defined.

(** ** AuditLog *)

Lemma logExecution_Ok (st st' : AuditLog.State) (sender bn v e a : Z) (ps : list byte)
    (h ih ts : Z) :
  AuditLog.logExecution st sender bn v e a ps h ih ts = Ok st' <->
  (sender = AuditLog.owner st \/ mapping_get false (AuditLog.authorizedLoggers st) sender = true)
  /\ v <> 0 /\ e <> 0 /\ h <> 0 /\ ih <> 0 /\
  AuditLog.executionExists st h = false /\
  AuditLog.totalExecutions st + 1 <= uint256_max /\
  st' = {| AuditLog.owner := AuditLog.owner st;
           AuditLog.executionLogs :=
             <[h := {| AuditLog.vault := v; AuditLog.executor := e;
                       AuditLog.actionType := a; AuditLog.params := ps;
                       AuditLog.proposalHash := h; AuditLog.ipfsHash := ih;
                       AuditLog.timestamp := ts; AuditLog.blockNumber := bn;
                       AuditLog.exists_ := true |}]> (AuditLog.executionLogs st);
           AuditLog.vaultExecutions :=
             <[v := mapping_get [] (AuditLog.vaultExecutions st) v ++ [h]]>
               (AuditLog.vaultExecutions st);
           AuditLog.executorExecutions :=
             <[e := mapping_get [] (AuditLog.executorExecutions st) e ++ [h]]>
               (AuditLog.executorExecutions st);
           AuditLog.allExecutions := AuditLog.allExecutions st ++ [h];
           AuditLog.totalExecutions := AuditLog.totalExecutions st + 1;
           AuditLog.authorizedLoggers := AuditLog.authorizedLoggers st |}.
Proof.
  unfold AuditLog.logExecution, AuditLog.onlyAuthorizedLogger, AuditLog.executionExists,
    checked_add.
  split.
  - intros H.
    bind_inv H. apply require_Ok, orb_true_iff in Hstep. rewrite Z.eqb_eq in Hstep.
    bind_inv H. apply require_Ok, negb_true_iff, Z.eqb_neq in Hstep0.
    bind_inv H. apply require_Ok, negb_true_iff, Z.eqb_neq in Hstep1.
    bind_inv H. apply require_Ok, negb_true_iff, Z.eqb_neq in Hstep2.
    bind_inv H. apply require_Ok, negb_true_iff, Z.eqb_neq in Hstep3.
    bind_inv H. apply require_Ok, negb_true_iff in Hstep4.
    bind_inv H.
    destruct (Z.leb_spec (AuditLog.totalExecutions st + 1) uint256_max) as [Hle | Hgt];
      [| discriminate].
    inversion Hstep5; subst a6. inversion H; subst st'.
    repeat split; assumption.
  - intros (Hauth & Hv & He & Hh & Hih & Hfresh & Hle & ->).
    assert (Hb : (sender =? AuditLog.owner st)
                 || mapping_get false (AuditLog.authorizedLoggers st) sender = true).
    { apply orb_true_iff. rewrite Z.eqb_eq. exact Hauth. }
    rewrite Hb. simpl.
    destruct (Z.eqb_spec v 0); [contradiction |]. simpl.
    destruct (Z.eqb_spec e 0); [contradiction |]. simpl.
    destruct (Z.eqb_spec h 0); [contradiction |]. simpl.
    destruct (Z.eqb_spec ih 0); [contradiction |]. simpl.
    rewrite Hfresh. simpl.
    destruct (Z.leb_spec (AuditLog.totalExecutions st + 1) uint256_max); [| lia].
    reflexivity.
Qed.

Lemma mapping_get_insert `{Countable K} {V : Type} (zero : V) (m : gmap K V)
    (k k' : K) (x : V) :
  mapping_get zero (<[k := x]> m) k' = if decide (k = k') then x else mapping_get zero m k'.
Proof.
  unfold mapping_get. rewrite lookup_insert. destruct (decide (k = k')); reflexivity.
Qed.

Lemma logExecution_reads_back (st st' : AuditLog.State) (sender bn v e a : Z)
    (ps : list byte) (h ih ts : Z) :
  AuditLog.logExecution st sender bn v e a ps h ih ts = Ok st' ->
  AuditLog.getExecution st' h =
    Ok {| AuditLog.vault := v; AuditLog.executor := e; AuditLog.actionType := a;
          AuditLog.params := ps; AuditLog.proposalHash := h; AuditLog.ipfsHash := ih;
          AuditLog.timestamp := ts; AuditLog.blockNumber := bn;
          AuditLog.exists_ := true |}.
Proof.
  intros H. apply logExecution_Ok in H as (_ & _ & _ & _ & _ & _ & _ & ->).
  unfold AuditLog.getExecution, mapping_get. simpl.
  rewrite lookup_insert_eq. reflexivity.
Qed.

(** X4. Reading back: after a successful [logExecution], [getExecution] on the
    logged hash returns exactly the record written (vault, executor, action,
    parameters, both hashes, timestamp, block number), and the record of every
    other hash is as before. *)
Theorem logExecution_getExecution (st st' : AuditLog.State) (sender bn v e a : Z)
    (ps : list byte) (h ih ts : Z) :
  AuditLog.logExecution st sender bn v e a ps h ih ts = Ok st' ->
  AuditLog.getExecution st' h =
    Ok {| AuditLog.vault := v; AuditLog.executor := e; AuditLog.actionType := a;
          AuditLog.params := ps; AuditLog.proposalHash := h; AuditLog.ipfsHash := ih;
          AuditLog.timestamp := ts; AuditLog.blockNumber := bn;
          AuditLog.exists_ := true |} /\
  forall h', h' <> h -> AuditLog.getExecution st' h' = AuditLog.getExecution st h'.
Proof.
  intros H. apply logExecution_Ok in H as (_ & _ & _ & _ & _ & _ & _ & ->).
  unfold AuditLog.getExecution, mapping_get. simpl. split.
  - rewrite lookup_insert_eq. reflexivity.
  - intros h' Hne. rewrite lookup_insert_ne by congruence. reflexivity.
Qed.

Lemma logExecution_getExecution_witness :
  let st1 := transact Sample.log
               (AuditLog.logExecution Sample.log Sample.executor_addr 1000 112 15 0 [] 77 7
                  1700000000) in
  AuditLog.getExecution st1 77 =
    Ok {| AuditLog.vault := 112; AuditLog.executor := 15; AuditLog.actionType := 0;
          AuditLog.params := []; AuditLog.proposalHash := 77; AuditLog.ipfsHash := 7;
          AuditLog.timestamp := 1700000000; AuditLog.blockNumber := 1000;
          AuditLog.exists_ := true |}.
Proof.
  intros st1.
  assert (H : AuditLog.logExecution Sample.log Sample.executor_addr 1000 112 15 0 [] 77 7
                1700000000 = Ok st1) by (vm_compute; reflexivity).
  exact (proj1 (logExecution_getExecution _ _ _ _ _ _ _ _ _ _ _ H)).
Defined.

(** *** The views of the log stay consistent *)

Lemma deployed_consistent (deployer : Z) : AuditLog.consistent (AuditLog.deployed deployer).
Proof.
  unfold AuditLog.consistent, AuditLog.deployed, AuditLog.executionExists,
    AuditLog.getVaultExecutions, AuditLog.getExecutorExecutions, mapping_get. simpl.
  split; [reflexivity |]. split; [constructor |]. split.
  - intros h. rewrite lookup_empty. simpl. split; [intros Hin | discriminate].
    apply elem_of_nil in Hin. contradiction.
  - split; [intros h l Hl; rewrite lookup_empty in Hl; discriminate |].
    split; intros x; rewrite lookup_empty; reflexivity.
Qed.

Lemma filter_ext_in {A : Type} (P Q : A -> Prop) `{forall x, Decision (P x)}
    `{forall x, Decision (Q x)} (l : list A) :
  (forall x, x ∈ l -> (P x <-> Q x)) -> filter P l = filter Q l.
Proof.
  induction l as [| x l IH]; intros Hext; [reflexivity |].
  rewrite !filter_cons.
  assert (Hx : P x <-> Q x) by (apply Hext; left).
  assert (Hl : filter P l = filter Q l)
    by (apply IH; intros y Hy; apply Hext; right; exact Hy).
  destruct (decide (P x)) as [Hp | Hp], (decide (Q x)) as [Hq | Hq];
    rewrite ?Hl; tauto || reflexivity.
Qed.

Lemma logExecution_consistent (st st' : AuditLog.State) (sender bn v e a : Z)
    (ps : list byte) (h ih ts : Z) :
  AuditLog.consistent st ->
  AuditLog.logExecution st sender bn v e a ps h ih ts = Ok st' ->
  AuditLog.consistent st'.
Proof.
  intros (Htotal & Hnodup & Hexists & Hkeys & Hvault & Hexec) H.
  apply logExecution_Ok in H as (_ & _ & _ & _ & _ & Hfresh & _ & ->).
  assert (Hnotin : h ∉ AuditLog.allExecutions st).
  { intros Hin. apply Hexists in Hin. congruence. }
  unfold AuditLog.consistent, AuditLog.executionExists, AuditLog.getVaultExecutions,
    AuditLog.getExecutorExecutions in *.
  simpl. split; [| split; [| split; [| split; [| split]]]].
  - rewrite length_app, Htotal. simpl. lia.
  - apply NoDup_app. split; [exact Hnodup |]. split; [| apply NoDup_singleton].
    intros x Hx Hx'. apply list_elem_of_singleton in Hx'. subst x. contradiction.
  - intros h'. rewrite elem_of_app, list_elem_of_singleton. unfold mapping_get.
    rewrite lookup_insert. destruct (decide (h = h')) as [-> | Hne]; simpl.
    + split; [reflexivity | intros _; right; reflexivity].
    + rewrite Hexists. unfold mapping_get. split; [| intros Hx; left; exact Hx].
      intros [Hx | ->]; [exact Hx | contradiction].
  - intros h' l. rewrite lookup_insert. destruct (decide (h = h')) as [-> | Hne].
    + intros [= <-]. split; reflexivity.
    + apply Hkeys.
  - intros v'. rewrite filter_app. unfold mapping_get at 1.
    assert (Hold : filter (fun h0 => AuditLog.vault
                     (mapping_get AuditLog.zero_log
                        (<[h := {| AuditLog.vault := v; AuditLog.executor := e;
                                   AuditLog.actionType := a; AuditLog.params := ps;
                                   AuditLog.proposalHash := h; AuditLog.ipfsHash := ih;
                                   AuditLog.timestamp := ts; AuditLog.blockNumber := bn;
                                   AuditLog.exists_ := true |}]>
                           (AuditLog.executionLogs st)) h0) = v')
                     (AuditLog.allExecutions st)
                   = mapping_get [] (AuditLog.vaultExecutions st) v').
    { rewrite Hvault. apply filter_ext_in. intros x Hx. unfold mapping_get.
      rewrite lookup_insert_ne by (intros ->; contradiction). reflexivity. }
    rewrite Hold. rewrite filter_cons, filter_nil.
    fold (mapping_get [] (<[v := mapping_get [] (AuditLog.vaultExecutions st) v ++ [h]]>
                            (AuditLog.vaultExecutions st)) v').
    rewrite !mapping_get_insert.
    destruct (decide (h = h)); [| contradiction]. simpl.
    destruct (decide (v = v')) as [-> | Hne]; [reflexivity |].
    rewrite app_nil_r. reflexivity.
  - intros e'. rewrite filter_app. unfold mapping_get at 1.
    assert (Hold : filter (fun h0 => AuditLog.executor
                     (mapping_get AuditLog.zero_log
                        (<[h := {| AuditLog.vault := v; AuditLog.executor := e;
                                   AuditLog.actionType := a; AuditLog.params := ps;
                                   AuditLog.proposalHash := h; AuditLog.ipfsHash := ih;
                                   AuditLog.timestamp := ts; AuditLog.blockNumber := bn;
                                   AuditLog.exists_ := true |}]>
                           (AuditLog.executionLogs st)) h0) = e')
                     (AuditLog.allExecutions st)
                   = mapping_get [] (AuditLog.executorExecutions st) e').
    { rewrite Hexec. apply filter_ext_in. intros x Hx. unfold mapping_get.
      rewrite lookup_insert_ne by (intros ->; contradiction). reflexivity. }
    rewrite Hold. rewrite filter_cons, filter_nil.
    fold (mapping_get [] (<[e := mapping_get [] (AuditLog.executorExecutions st) e ++ [h]]>
                            (AuditLog.executorExecutions st)) e').
    rewrite !mapping_get_insert.
    destruct (decide (h = h)); [| contradiction]. simpl.
    destruct (decide (e = e')) as [-> | Hne]; [reflexivity |].
    rewrite app_nil_r. reflexivity.
Qed.

Lemma AuditLog_step_consistent (st : AuditLog.State) (tx : Z * AuditLog.call) :
  AuditLog.consistent st -> AuditLog.consistent (AuditLog.step st tx).
Proof.
  intros Hc. destruct tx as [sender c]. unfold AuditLog.step, transact.
  destruct c as [bn v e a ps h ih ts | l | l].
  - destruct (AuditLog.logExecution st sender bn v e a ps h ih ts) as [st' |] eqn:H;
      [| exact Hc].
    eapply logExecution_consistent; eassumption.
  - unfold AuditLog.addAuthorizedLogger, AuditLog.onlyOwner, require.
    destruct (sender =? AuditLog.owner st); simpl; [| exact Hc].
    destruct (negb (l =? 0)); simpl; exact Hc.
  - unfold AuditLog.removeAuthorizedLogger, AuditLog.onlyOwner, require.
    destruct (sender =? AuditLog.owner st); simpl; exact Hc.
Qed.

(** X5. Whatever transactions the AuditLog receives after deployment, its
    views agree: [totalExecutions] is the length of [allExecutions], no hash
    is listed twice, a hash is listed exactly when [executionExists] holds for
    it, and the list of each vault and of each executor is the global list
    restricted to the records of that vault or executor, in the same order. *)
Theorem AuditLog_views_consistent (deployer : Z) (txs : list (Z * AuditLog.call)) :
  AuditLog.consistent (AuditLog.run (AuditLog.deployed deployer) txs).
Proof.
  unfold AuditLog.run.
  assert (Hgen : forall st, AuditLog.consistent st ->
                            AuditLog.consistent (fold_left AuditLog.step txs st)).
  { induction txs as [| tx txs IH]; intros st Hst; simpl; [exact Hst |].
    apply IH, AuditLog_step_consistent, Hst. }
  apply Hgen, deployed_consistent.
Qed.

Lemma AuditLog_step_keeps_existing (st : AuditLog.State) (tx : Z * AuditLog.call) (h : Z) :
  AuditLog.executionExists st h = true ->
  AuditLog.executionExists (AuditLog.step st tx) h = true.
Proof.
  intros Hex. destruct tx as [sender c]. unfold AuditLog.step, transact.
  destruct c as [bn v e a ps h' ih ts | l | l].
  - destruct (AuditLog.logExecution st sender bn v e a ps h' ih ts) as [st' |] eqn:H;
      [| exact Hex].
    apply logExecution_Ok in H as (_ & _ & _ & _ & _ & _ & _ & ->).
    unfold AuditLog.executionExists in *. simpl. rewrite mapping_get_insert.
    destruct (decide (h' = h)); [reflexivity | exact Hex].
  - unfold AuditLog.addAuthorizedLogger, AuditLog.onlyOwner, require.
    destruct (sender =? AuditLog.owner st); simpl; [| exact Hex].
    destruct (negb (l =? 0)); simpl; exact Hex.
  - unfold AuditLog.removeAuthorizedLogger, AuditLog.onlyOwner, require.
    destruct (sender =? AuditLog.owner st); simpl; exact Hex.
Qed.

Lemma AuditLog_run_keeps_existing (txs : list (Z * AuditLog.call)) (st : AuditLog.State)
    (h : Z) :
  AuditLog.executionExists st h = true ->
  AuditLog.executionExists (AuditLog.run st txs) h = true.
Proof.
  revert st. induction txs as [| tx txs IH]; intros st Hex; simpl; [exact Hex |].
  apply IH, AuditLog_step_keeps_existing, Hex.
Qed.

(** X6. A proposal hash is logged at most once: after a successful
    [logExecution] for a hash, every later [logExecution] for that hash fails,
    whoever sends it, with whatever other arguments and after whatever other
    AuditLog transactions; sent by the same logger with non-zero arguments
    right away, it fails with "Execution already logged". *)
Theorem logExecution_at_most_once (st st' : AuditLog.State) (sender bn v e a : Z)
    (ps : list byte) (h ih ts : Z) :
  AuditLog.logExecution st sender bn v e a ps h ih ts = Ok st' ->
  AuditLog.logExecution st' sender bn v e a ps h ih ts
  = Rev (Error "AuditLog: Execution already logged") /\
  forall (txs : list (Z * AuditLog.call)) (sender' bn' v' e' a' : Z) (ps' : list byte)
         (ih' ts' : Z),
    Executor.succeeds
      (AuditLog.logExecution (AuditLog.run st' txs) sender' bn' v' e' a' ps' h ih' ts')
    = false.
Proof.
  intros H.
  assert (Hex : AuditLog.executionExists st' h = true).
  { apply logExecution_Ok in H as (_ & _ & _ & _ & _ & _ & _ & ->).
    unfold AuditLog.executionExists. simpl. rewrite mapping_get_insert.
    destruct (decide (h = h)); [reflexivity | contradiction]. }
  split.
  - apply logExecution_Ok in H as (Hauth & Hv & He & Hh & Hih & _ & _ & Hst').
    assert (Hb : (sender =? AuditLog.owner st')
                 || mapping_get false (AuditLog.authorizedLoggers st') sender = true).
    { subst st'. simpl. apply orb_true_iff. rewrite Z.eqb_eq. exact Hauth. }
    unfold AuditLog.logExecution, AuditLog.onlyAuthorizedLogger.
    rewrite Hb. simpl.
    destruct (Z.eqb_spec v 0); [contradiction |]. simpl.
    destruct (Z.eqb_spec e 0); [contradiction |]. simpl.
    destruct (Z.eqb_spec h 0); [contradiction |]. simpl.
    destruct (Z.eqb_spec ih 0); [contradiction |]. simpl.
    unfold AuditLog.executionExists in Hex. rewrite Hex. reflexivity.
  - intros txs sender' bn' v' e' a' ps' ih' ts'.
    destruct (AuditLog.logExecution (AuditLog.run st' txs) sender' bn' v' e' a' ps' h ih' ts')
      as [st'' | r] eqn:H2; [| reflexivity].
    apply logExecution_Ok in H2 as (_ & _ & _ & _ & _ & Hfresh & _).
    rewrite (AuditLog_run_keeps_existing txs st' h Hex) in Hfresh. discriminate.
Qed.

Lemma logExecution_at_most_once_witness :
  let st1 := transact Sample.log
               (AuditLog.logExecution Sample.log Sample.executor_addr 1000 112 15 0 [] 77 7
                  1700000000) in
  AuditLog.logExecution st1 Sample.executor_addr 1000 112 15 0 [] 77 7 1700000000
  = Rev (Error "AuditLog: Execution already logged").
Proof.
  intros st1.
  assert (H : AuditLog.logExecution Sample.log Sample.executor_addr 1000 112 15 0 [] 77 7
                1700000000 = Ok st1) by (vm_compute; reflexivity).
  exact (proj1 (logExecution_at_most_once _ _ _ _ _ _ _ _ _ _ _ H)).
Defined.

(** *** The two paging loops *)

Lemma array_get_Some (l : list Z) (i : nat) (x : Z) :
  l !! i = Some x -> array_get l (Z.of_nat i) = Ok x.
Proof. intros H. unfold array_get. rewrite Nat2Z.id, H. reflexivity. Qed.

Lemma array_set_lt (l : list Z) (i : nat) (x : Z) :
  (i < length l)%nat -> array_set l (Z.of_nat i) x = Ok (<[i := x]> l).
Proof.
  intros H. unfold array_set. rewrite Nat2Z.id.
  destruct (Nat.ltb_spec i (length l)); [reflexivity | lia].
Qed.

Lemma checked_sub_Ok (a b : Z) : b <= a -> checked_sub a b = Ok (a - b).
Proof.
  intros H. unfold checked_sub. destruct (Z.leb_spec b a); [reflexivity | lia].
Qed.

Lemma take_S_insert (l : list Z) (j : nat) (x : Z) :
  (j < length l)%nat -> take (S j) (<[j := x]> l) = take j l ++ [x].
Proof.
  intros Hj.
  rewrite (take_S_r _ _ x) by (apply list_lookup_insert_eq; exact Hj).
  rewrite take_insert_ge by lia. reflexivity.
Qed.

Lemma copy_executions_spec (all : list Z) (o : nat) (steps j : nat) (result_ : list Z) :
  (o + j + steps <= length all)%nat ->
  (j + steps <= length result_)%nat ->
  Z.of_nat (length all) <= uint256_max ->
  AuditLog.copy_executions all (Z.of_nat o) (Z.of_nat (o + j)) steps result_
  = Ok (take j result_ ++ take steps (drop (o + j) all) ++ drop (j + steps) result_).
Proof.
  revert j result_. induction steps as [| k IH]; intros j result_ Hall Hres Hmax.
  - simpl. rewrite Nat.add_0_r, take_drop. reflexivity.
  - cbn [AuditLog.copy_executions].
    destruct (lookup_lt_is_Some_2 all (o + j)) as [x Hx]; [lia |].
    rewrite (array_get_Some _ _ _ Hx). simpl.
    rewrite checked_sub_Ok by lia. simpl.
    replace (Z.of_nat (o + j) - Z.of_nat o) with (Z.of_nat j) by lia.
    rewrite array_set_lt by lia. simpl.
    rewrite checked_add_Ok by lia. simpl.
    replace (Z.of_nat (o + j) + 1) with (Z.of_nat (o + S j)) by lia.
    rewrite IH by (rewrite ?length_insert; lia).
    rewrite take_S_insert by lia.
    rewrite drop_insert_lt by lia.
    rewrite (drop_S all x (o + j)) by exact Hx.
    replace (o + S j)%nat with (S (o + j)) by lia.
    replace (S j + k)%nat with (j + S k)%nat by lia.
    cbn [take]. rewrite <- app_assoc. reflexivity.
Qed.

(** X7. Paging through the log: with an offset inside the list,
    [getAllExecutions(offset, limit)] returns the [limit] hashes that follow
    the first [offset] ones (fewer at the end of the list); with an offset at
    or beyond the end, and so always on an empty log, it reverts with
    "Invalid offset". *)
Theorem getAllExecutions_page (st : AuditLog.State) (offset limit : Z) :
  0 <= offset -> 0 <= limit -> offset + limit <= uint256_max ->
  Z.of_nat (length (AuditLog.allExecutions st)) <= uint256_max ->
  AuditLog.getAllExecutions st offset limit =
    if offset <? Z.of_nat (length (AuditLog.allExecutions st))
    then Ok (take (Z.to_nat limit) (drop (Z.to_nat offset) (AuditLog.allExecutions st)))
    else Rev (Error "AuditLog: Invalid offset").
Proof.
  intros Hoff Hlim Hsum Hlen. unfold AuditLog.getAllExecutions.
  set (all := AuditLog.allExecutions st) in *.
  destruct (Z.ltb_spec offset (Z.of_nat (length all))) as [Hin | Hout];
    [| reflexivity].
  simpl. rewrite checked_add_Ok by exact Hsum. simpl.
  set (end_ := if offset + limit >? Z.of_nat (length all)
               then Z.of_nat (length all) else offset + limit).
  assert (Hend : offset <= end_ <= Z.of_nat (length all) /\
                 end_ - offset = Z.min limit (Z.of_nat (length all) - offset)).
  { unfold end_. rewrite Z.gtb_ltb.
    destruct (Z.ltb_spec (Z.of_nat (length all)) (offset + limit)); lia. }
  destruct Hend as [Hend Hsize].
  rewrite checked_sub_Ok by lia. simpl.
  set (n := Z.to_nat (end_ - offset)).
  rewrite <- (Z2Nat.id offset) at 1 2 by exact Hoff.
  replace (Z.of_nat (Z.to_nat offset)) with (Z.of_nat (Z.to_nat offset + 0)) at 2
    by (f_equal; lia).
  rewrite copy_executions_spec; [| lia | rewrite length_replicate; lia | exact Hlen].
  simpl. rewrite Nat.add_0_r.
  rewrite (drop_ge (replicate n 0)) by (rewrite length_replicate; lia).
  rewrite app_nil_r. f_equal.
  destruct (Z.le_ge_cases limit (Z.of_nat (length all) - offset)) as [Hle | Hge].
  - replace n with (Z.to_nat limit) by lia. reflexivity.
  - rewrite !take_ge by (rewrite length_drop; lia). reflexivity.
Qed.

Lemma getAllExecutions_page_witness :
  let st := {| AuditLog.owner := 1; AuditLog.executionLogs := ∅;
               AuditLog.vaultExecutions := ∅; AuditLog.executorExecutions := ∅;
               AuditLog.allExecutions := [11; 22; 33; 44]; AuditLog.totalExecutions := 4;
               AuditLog.authorizedLoggers := ∅ |} in
  AuditLog.getAllExecutions st 1 2 = Ok [22; 33].
Proof.
  intros st.
  apply (getAllExecutions_page st 1 2).
  - lia.
  - lia.
  - vm_compute. discriminate.
  - vm_compute. discriminate.
Defined.

Lemma copy_recent_spec (vaultExecs : list Z) (steps j : nat) (result_ : list Z) :
  (j + steps <= length vaultExecs)%nat ->
  (j + steps <= length result_)%nat ->
  Z.of_nat (length vaultExecs) <= uint256_max ->
  AuditLog.copy_recent vaultExecs (Z.of_nat (length vaultExecs)) (Z.of_nat j) steps result_
  = Ok (take j result_ ++ take steps (drop j (reverse vaultExecs))
        ++ drop (j + steps) result_).
Proof.
  revert j result_. induction steps as [| k IH]; intros j result_ Hall Hres Hmax.
  - simpl. rewrite Nat.add_0_r, take_drop. reflexivity.
  - cbn [AuditLog.copy_recent].
    rewrite checked_sub_Ok by lia. simpl.
    rewrite checked_sub_Ok by lia. simpl.
    destruct (lookup_lt_is_Some_2 (reverse vaultExecs) j) as [x Hx];
      [rewrite length_reverse; lia |].
    assert (Hx' : vaultExecs !! (length vaultExecs - S j)%nat = Some x)
      by (rewrite <- reverse_lookup by lia; exact Hx).
    replace (Z.of_nat (length vaultExecs) - 1 - Z.of_nat j)
      with (Z.of_nat (length vaultExecs - S j)) by lia.
    rewrite (array_get_Some _ _ _ Hx'). simpl.
    rewrite array_set_lt by lia. simpl.
    rewrite checked_add_Ok by lia. simpl.
    replace (Z.of_nat j + 1) with (Z.of_nat (S j)) by lia.
    rewrite IH by (rewrite ?length_insert; lia).
    rewrite take_S_insert by lia.
    rewrite drop_insert_lt by lia.
    rewrite (drop_S (reverse vaultExecs) x j) by exact Hx.
    replace (S j + k)%nat with (j + S k)%nat by lia.
    cbn [take]. rewrite <- app_assoc. reflexivity.
Qed.

(** X8. [getRecentVaultExecutions(vault, count)] returns the vault's hashes
    newest first, at most [count] of them: the first [count] elements of the
    reversed list of the vault (the whole reversed list when [count] exceeds
    its length, the empty list for a vault without executions). *)
Theorem getRecentVaultExecutions_newest_first (st : AuditLog.State) (vault count : Z) :
  0 <= count ->
  Z.of_nat (length (AuditLog.getVaultExecutions st vault)) <= uint256_max ->
  AuditLog.getRecentVaultExecutions st vault count =
    Ok (take (Z.to_nat count) (reverse (AuditLog.getVaultExecutions st vault))).
Proof.
  intros Hcount Hlen.
  unfold AuditLog.getRecentVaultExecutions, AuditLog.getVaultExecutions in *.
  set (l := mapping_get [] (AuditLog.vaultExecutions st) vault) in *.
  set (c := if count >? Z.of_nat (length l) then Z.of_nat (length l) else count).
  assert (Hc : c = Z.min count (Z.of_nat (length l))).
  { unfold c. rewrite Z.gtb_ltb. destruct (Z.ltb_spec (Z.of_nat (length l)) count); lia. }
  change 0 with (Z.of_nat 0).
  rewrite copy_recent_spec; [| lia | rewrite length_replicate; lia | exact Hlen].
  simpl. rewrite (drop_ge (replicate (Z.to_nat c) 0)) by (rewrite length_replicate; lia).
  rewrite app_nil_r, drop_0. f_equal.
  destruct (Z.le_ge_cases count (Z.of_nat (length l))) as [Hle | Hge].
  - replace (Z.to_nat c) with (Z.to_nat count) by lia. reflexivity.
  - rewrite !take_ge by (rewrite length_reverse; lia). reflexivity.
Qed.

Lemma getRecentVaultExecutions_newest_first_witness :
  let st := {| AuditLog.owner := 1; AuditLog.executionLogs := ∅;
               AuditLog.vaultExecutions := <[112 := [11; 22; 33]]> ∅;
               AuditLog.executorExecutions := ∅;
               AuditLog.allExecutions := [11; 22; 33]; AuditLog.totalExecutions := 3;
               AuditLog.authorizedLoggers := ∅ |} in
  AuditLog.getRecentVaultExecutions st 112 2 = Ok [33; 22].
Proof.
  intros st.
  apply (getRecentVaultExecutions_newest_first st 112 2).
  - lia.
  - vm_compute. discriminate.
Defined.

(** ** What an execution guarantees *)

Lemma validDeadline_Ok (now deadline : Z) (u : unit) :
  Executor.validDeadline now deadline = Ok u ->
  now + 300 <= deadline <= now + 3600.
Proof.
  unfold Executor.validDeadline, Executor.MAX_DEADLINE_DURATION,
    Executor.MIN_DEADLINE_DURATION, checked_add.
  rewrite Z.gtb_ltb.
  destruct (Z.ltb_spec now deadline); simpl; [| discriminate].
  destruct (now + 3600 <=? uint256_max); simpl; [| discriminate].
  destruct (Z.leb_spec deadline (now + 3600)); simpl; [| discriminate].
  destruct (now + 300 <=? uint256_max); simpl; [| discriminate].
  rewrite Z.geb_leb.
  destruct (Z.leb_spec (now + 300) deadline); [| discriminate].
  intros _. lia.
Qed.

Lemma dex_allowed_In (dexAddress : Z) (allowed : list Z) :
  PolicyManager.dex_allowed dexAddress allowed = true <-> dexAddress ∈ allowed.
Proof.
  induction allowed as [| d rest IH]; simpl.
  - split; [discriminate | intros H; apply elem_of_nil in H; contradiction].
  - rewrite elem_of_cons. destruct (Z.eqb_spec d dexAddress) as [-> | Hne].
    + split; [intros _; left; reflexivity | reflexivity].
    + rewrite IH. split; [intros H; right; exact H |].
      intros [-> | H]; [contradiction | exact H].
Qed.

Lemma percent_within_cap (amount balance cap : Z) (no yes : result (bool * string))
    (msg : string) :
  (scaled ← checked_mul amount 100;
   percent ← checked_div scaled balance;
   if percent >? cap then no else yes) = Ok (true, msg) ->
  no <> Ok (true, msg) ->
  balance <> 0 /\ amount * 100 / balance <= cap.
Proof.
  unfold checked_mul, checked_div. intros H Hno.
  destruct (amount * 100 <=? uint256_max); simpl in H; [| discriminate].
  destruct (Z.eqb_spec balance 0); simpl in H; [discriminate |].
  rewrite Z.gtb_ltb in H.
  destruct (Z.ltb_spec cap (amount * 100 / balance)); [contradiction |].
  split; [assumption | lia].
Qed.

(** What it takes for [validateAction] to answer [true]. *)
Lemma validateAction_true (st : PolicyManager.State) (sender vault actionType : Z)
    (params : list byte) (msg : string) :
  PolicyManager.validateAction st sender vault actionType params = Ok (true, msg) ->
  let policy := PolicyManager.policy_of st vault in
  PolicyManager.onlyAuthorizedValidator st sender = Ok tt /\
  PolicyManager.createdAt policy <> 0 /\
  PolicyManager.isActive policy = true /\
  ((actionType = 0 /\
    exists dex amount balance,
      abi_decode_address_uint256_uint256 params = Ok (dex, amount, balance) /\
      dex ∈ PolicyManager.allowedDex policy /\
      balance <> 0 /\ amount * 100 / balance <= PolicyManager.maxTradePercent policy)
   \/ ((actionType = 1 \/ actionType = 2) /\
       exists amount balance,
         abi_decode_uint256_uint256 params = Ok (amount, balance) /\
         balance <> 0 /\ amount * 100 / balance <= PolicyManager.maxTradePercent policy)).
Proof.
  intros H policy. unfold PolicyManager.validateAction in H.
  bind_inv H. destruct a. split; [exact Hstep |].
  fold policy in H.
  destruct (Z.eqb_spec (PolicyManager.createdAt policy) 0) as [Hc | Hc]; [discriminate |].
  destruct (PolicyManager.isActive policy) eqn:Hact; simpl in H; [| discriminate].
  split; [exact Hc |]. split; [reflexivity |].
  destruct (Z.eqb_spec actionType 0) as [-> | H0];
    [| destruct (Z.eqb_spec actionType 1) as [-> | H1];
       [| destruct (Z.eqb_spec actionType 2) as [-> | H2]; [| discriminate]]].
  - unfold PolicyManager._validateSwapAction in H.
    bind_inv H. destruct a as [[dex amount] balance].
    destruct (PolicyManager.dex_allowed dex (PolicyManager.allowedDex policy)) eqn:Hdex;
      simpl in H; [| discriminate].
    apply percent_within_cap in H as [Hb Hcap]; [| discriminate].
    left. split; [reflexivity |]. exists dex, amount, balance.
    apply dex_allowed_In in Hdex. repeat split; assumption.
  - unfold PolicyManager._validateLendingAction in H.
    bind_inv H. destruct a as [amount balance].
    apply percent_within_cap in H as [Hb Hcap]; [| discriminate].
    right. split; [left; reflexivity |]. exists amount, balance.
    repeat split; assumption.
  - unfold PolicyManager._validateBorrowingAction in H.
    bind_inv H. destruct a as [amount balance].
    apply percent_within_cap in H as [Hb Hcap]; [| discriminate].
    right. split; [right; reflexivity |]. exists amount, balance.
    repeat split; assumption.
Qed.

Section ExecutorGuarantees.

Variable keccak256 : list byte -> Z.
Variable secp256k1_recover : Z -> Z -> Z -> Z -> option Z.

Abbreviation executeProposal' := (Executor.executeProposal keccak256 secp256k1_recover).
Abbreviation verify_and_mark' := (Executor.verify_and_mark keccak256 secp256k1_recover).
Abbreviation recover_signer' := (Executor.recover_signer keccak256 secp256k1_recover).
Abbreviation hash' := (Executor._getProposalHash keccak256).
Abbreviation isNonceUsed' := (Executor.isNonceUsed keccak256).
Abbreviation step' := (Executor.step keccak256 secp256k1_recover).
Abbreviation run' := (Executor.run keccak256 secp256k1_recover).

(** X9. An executed proposal was authorized: its deadline lay between 5
    minutes and 1 hour after the block time, its 65-byte signature recovers to
    the registered agent signer, and its nonce, unused under that signer
    before the call, is used after it. *)
Theorem executed_implies_authorized (w w' : Executor.World) (env : Executor.Env)
    (p : ProposalFields) (signature : list byte) :
  executeProposal' w env p signature = Ok w' ->
  Executor.block_timestamp env + 300 <= pf_deadline p
    <= Executor.block_timestamp env + 3600 /\
  length signature = 65%nat /\
  recover_signer' (hash' p) signature = Executor.agentSigner (Executor.executor w) /\
  isNonceUsed' (Executor.executor w) (pf_nonce p) = false /\
  isNonceUsed' (Executor.executor w') (pf_nonce p) = true.
Proof.
  intros H.
  pose proof (executeProposal_executor _ _ _ _ _ _ _ H) as Hex.
  apply executeProposal_Ok in H as (w1 & H1 & _ & _).
  apply verify_and_mark_Ok in H1 as (Hd & Hlen & Hrec & Hunused & _).
  apply validDeadline_Ok in Hd.
  repeat split; try assumption; try lia.
  unfold Executor.isNonceUsed. rewrite Hex, nonce_used_mark.
  unfold Executor.nonceKey. simpl.
  destruct (decide _); [reflexivity | contradiction].
Qed.

Lemma check_policy_Ok (w : Executor.World) (p : ProposalFields) (u : unit) :
  Executor.check_policy w p = Ok u ->
  exists pm msg,
    Executor.policyManagers w !! Executor.policyManager (Executor.executor w) = Some pm /\
    PolicyManager.validateAction pm (Executor.self w) (pf_vault p) (pf_actionType p)
      (pf_params p) = Ok (true, msg).
Proof.
  unfold Executor.check_policy, Executor.contract_at. intros H.
  destruct (Executor.policyManagers w !! _) as [pm |] eqn:Hpm; simpl in H; [| discriminate].
  bind_inv H. destruct a as [isValid reason]. apply require_Ok in H. subst isValid.
  exists pm, reason. split; [reflexivity | exact Hstep].
Qed.

(** X10. An executed proposal was allowed by the vault's policy in the
    PolicyManager the Executor points to: the policy exists and is active, and
    the action is a Swap through a listed venue, a Lend or a Borrow whose
    amount, as a truncated percentage of the stated non-zero balance, is at
    most [maxTradePercent]. No other action type is ever executed. *)
Theorem executed_implies_policy_allows (w w' : Executor.World) (env : Executor.Env)
    (p : ProposalFields) (signature : list byte) :
  executeProposal' w env p signature = Ok w' ->
  exists pm,
    Executor.policyManagers w !! Executor.policyManager (Executor.executor w) = Some pm /\
    let policy := PolicyManager.getPolicy pm (pf_vault p) in
    PolicyManager.createdAt policy <> 0 /\
    PolicyManager.isActive policy = true /\
    ((pf_actionType p = 0 /\
      exists dex amount balance,
        abi_decode_address_uint256_uint256 (pf_params p) = Ok (dex, amount, balance) /\
        dex ∈ PolicyManager.allowedDex policy /\
        balance <> 0 /\
        amount * 100 / balance <= PolicyManager.maxTradePercent policy)
     \/ ((pf_actionType p = 1 \/ pf_actionType p = 2) /\
         exists amount balance,
           abi_decode_uint256_uint256 (pf_params p) = Ok (amount, balance) /\
           balance <> 0 /\
           amount * 100 / balance <= PolicyManager.maxTradePercent policy)).
Proof.
  intros H.
  apply executeProposal_Ok in H as (w1 & H1 & H2 & _).
  apply verify_and_mark_Ok in H1 as (_ & _ & _ & _ & ->).
  apply check_policy_Ok in H2 as (pm & msg & Hpm & Hv). simpl in Hpm, Hv.
  exists pm. split; [exact Hpm |].
  apply validateAction_true in Hv as (_ & Hc & Ha & Hcases).
  unfold PolicyManager.getPolicy. simpl. repeat split; assumption.
Qed.

Lemma perform_effect_Ok (w w' : Executor.World) (env : Executor.Env) (p : ProposalFields) :
  Executor.perform_effect keccak256 w env p = Ok w' ->
  exists vault vault' log log',
    Executor.vaults w !! pf_vault p = Some vault /\
    Vault.executeAction vault (Executor.self w) (Executor.block_timestamp env)
      (pf_actionType p) (pf_params p) = Ok vault' /\
    Executor.auditLogs w !! Executor.auditLog (Executor.executor w) = Some log /\
    AuditLog.logExecution log (Executor.self w) (Executor.block_number env)
      (pf_vault p) (Executor.msg_sender env) (pf_actionType p) (pf_params p)
      (hash' p) (pf_ipfsHash p) (Executor.block_timestamp env) = Ok log' /\
    w' = {| Executor.self := Executor.self w;
            Executor.executor := Executor.executor w;
            Executor.policyManagers := Executor.policyManagers w;
            Executor.auditLogs :=
              <[Executor.auditLog (Executor.executor w) := log']> (Executor.auditLogs w);
            Executor.vaults := <[pf_vault p := vault']> (Executor.vaults w) |}.
Proof.
  unfold Executor.perform_effect, Executor.contract_at. intros H.
  destruct (Executor.vaults w !! pf_vault p) as [vault |] eqn:Hv; simpl in H;
    [| discriminate].
  destruct (Vault.executeAction vault _ _ _ _) as [vault' |] eqn:Hva; simpl in H;
    [| discriminate].
  destruct (Executor.auditLogs w !! _) as [log |] eqn:Hl; simpl in H; [| discriminate].
  destruct (AuditLog.logExecution log _ _ _ _ _ _ _ _ _) as [log' |] eqn:Hla; simpl in H;
    [| discriminate].
  inversion H; subst w'.
  exists vault, vault', log, log'. repeat split; assumption || reflexivity.
Qed.

(** X11. An execution leaves its trace: in the AuditLog the Executor points
    to, under the proposal's hash, which was not logged before, stands the
    record of this execution (vault, [msg.sender] as executor, action type,
    parameters, IPFS hash, block time and number); the vault's [lastActivity]
    is the block time; the PolicyManagers are untouched. *)
Theorem executed_leaves_record (w w' : Executor.World) (env : Executor.Env)
    (p : ProposalFields) (signature : list byte) :
  executeProposal' w env p signature = Ok w' ->
  exists log log' vault',
    Executor.auditLogs w !! Executor.auditLog (Executor.executor w) = Some log /\
    AuditLog.executionExists log (hash' p) = false /\
    Executor.auditLogs w' !! Executor.auditLog (Executor.executor w') = Some log' /\
    AuditLog.getExecution log' (hash' p) =
      Ok {| AuditLog.vault := pf_vault p;
            AuditLog.executor := Executor.msg_sender env;
            AuditLog.actionType := pf_actionType p;
            AuditLog.params := pf_params p;
            AuditLog.proposalHash := hash' p;
            AuditLog.ipfsHash := pf_ipfsHash p;
            AuditLog.timestamp := Executor.block_timestamp env;
            AuditLog.blockNumber := Executor.block_number env;
            AuditLog.exists_ := true |} /\
    Executor.vaults w' !! pf_vault p = Some vault' /\
    Vault.lastActivity vault' = Executor.block_timestamp env /\
    Executor.policyManagers w' = Executor.policyManagers w.
Proof.
  intros H.
  apply executeProposal_Ok in H as (w1 & H1 & _ & H3).
  apply verify_and_mark_Ok in H1 as (_ & _ & _ & _ & ->).
  apply perform_effect_Ok in H3 as (vault & vault' & log & log' & Hv & Hva & Hl & Hla & ->).
  simpl in *.
  exists log, log', vault'.
  split; [exact Hl |].
  split; [apply logExecution_Ok in Hla as (_ & _ & _ & _ & _ & Hfresh & _); exact Hfresh |].
  split; [apply lookup_insert_eq |].
  split; [exact (logExecution_reads_back _ _ _ _ _ _ _ _ _ _ _ Hla) |].
  split; [apply lookup_insert_eq |].
  split; [| reflexivity].
  unfold Vault.executeAction in Hva. bind_inv Hva. inversion Hva. reflexivity.
Qed.

(** X12. An execution presupposes the deployment wiring: the Executor is an
    authorized validator (or the owner) of the PolicyManager it points to, an
    authorized executor of the proposal's vault, and an authorized logger (or
    the owner) of the AuditLog it points to. *)
Theorem executed_implies_wiring (w w' : Executor.World) (env : Executor.Env)
    (p : ProposalFields) (signature : list byte) :
  executeProposal' w env p signature = Ok w' ->
  exists pm vault log,
    Executor.policyManagers w !! Executor.policyManager (Executor.executor w) = Some pm /\
    Executor.vaults w !! pf_vault p = Some vault /\
    Executor.auditLogs w !! Executor.auditLog (Executor.executor w) = Some log /\
    (mapping_get false (PolicyManager.authorizedValidators pm) (Executor.self w) = true
     \/ Executor.self w = PolicyManager.owner pm) /\
    mapping_get false (Vault.authorizedExecutors vault) (Executor.self w) = true /\
    (Executor.self w = AuditLog.owner log
     \/ mapping_get false (AuditLog.authorizedLoggers log) (Executor.self w) = true).
Proof.
  intros H.
  apply executeProposal_Ok in H as (w1 & H1 & H2 & H3).
  apply verify_and_mark_Ok in H1 as (_ & _ & _ & _ & ->).
  apply check_policy_Ok in H2 as (pm & msg & Hpm & Hv). simpl in Hpm, Hv.
  apply validateAction_true in Hv as (Hauth & _).
  apply onlyAuthorizedValidator_Ok in Hauth.
  apply perform_effect_Ok in H3 as (vault & vault' & log & log' & Hvl & Hva & Hl & Hla & _).
  simpl in *.
  exists pm, vault, log.
  split; [exact Hpm |]. split; [exact Hvl |]. split; [exact Hl |].
  split; [exact Hauth |].
  split.
  - unfold Vault.executeAction, Vault.onlyAuthorizedExecutor in Hva.
    bind_inv Hva. apply require_Ok in Hstep. exact Hstep.
  - apply logExecution_Ok in Hla as (Hlog & _). exact Hlog.
Qed.

(** X13. A proposal inside the deadline window whose signature is not 65
    bytes long, or does not recover to the registered signer, is rejected with
    the signature reason, whatever the state of its nonce, the policy, the
    vault and the log. *)
Theorem bad_signature_rejected (w : Executor.World) (env : Executor.Env)
    (p : ProposalFields) (signature : list byte) :
  Executor.validDeadline (Executor.block_timestamp env) (pf_deadline p) = Ok tt ->
  (length signature <> 65%nat ->
   executeProposal' w env p signature = Rev (Error "Executor: Invalid signature length")) /\
  (length signature = 65%nat ->
   recover_signer' (hash' p) signature <> Executor.agentSigner (Executor.executor w) ->
   executeProposal' w env p signature = Rev (Error "Executor: Invalid signature")).
Proof.
  intros Hd.
  unfold Executor.executeProposal, Executor.verify_and_mark, Executor._verifySignature.
  rewrite Hd. simpl. split.
  - intros Hlen. destruct (Nat.eqb_spec (length signature) 65); [contradiction |].
    reflexivity.
  - intros Hlen Hrec. rewrite Hlen. simpl.
    destruct (Z.eqb_spec (recover_signer' (hash' p) signature)
                (Executor.agentSigner (Executor.executor w))); [contradiction |].
    reflexivity.
Qed.

(** X14. Only the owner configures the Executor: whatever transaction an
    account other than the owner sends, the owner, the agent signer and the
    addresses of the PolicyManager and the AuditLog are afterwards what they
    were; in particular nobody else can pause, unpause or re-key it. *)
Theorem non_owner_cannot_configure (w : Executor.World) (env : Executor.Env)
    (c : Executor.call) :
  Executor.msg_sender env <> Executor.owner (Executor.executor w) ->
  let ex' := Executor.executor (step' w (env, c)) in
  Executor.owner ex' = Executor.owner (Executor.executor w) /\
  Executor.agentSigner ex' = Executor.agentSigner (Executor.executor w) /\
  Executor.policyManager ex' = Executor.policyManager (Executor.executor w) /\
  Executor.auditLog ex' = Executor.auditLog (Executor.executor w).
Proof.
  intros Hne. unfold Executor.step, transact. simpl.
  assert (Hown : Executor.onlyOwner (Executor.executor w) (Executor.msg_sender env)
                 = Rev (Error "Ownable: caller is not the owner")).
  { unfold Executor.onlyOwner.
    destruct (Z.eqb_spec (Executor.msg_sender env) (Executor.owner (Executor.executor w)));
      [contradiction | reflexivity]. }
  destruct c; simpl.
  - destruct (Executor.executeProposal _ _ w env p signature) as [w' |] eqn:H;
      [| repeat split].
    apply executeProposal_executor in H. rewrite H. repeat split.
  - unfold Executor.updateAgentSigner. rewrite Hown. repeat split.
  - unfold Executor.updatePolicyManager. rewrite Hown. repeat split.
  - unfold Executor.updateAuditLog. rewrite Hown. repeat split.
  - unfold Executor.emergencyPause. rewrite Hown. repeat split.
  - unfold Executor.emergencyUnpause. rewrite Hown. repeat split.
  - repeat split.
Qed.

(** *** Facts about every reachable Executor *)



End ExecutorGuarantees.

Lemma executed_implies_authorized_witness :
  let p := Sample.swap Sample.vault_a 100 1000 1 (Sample.now + 3600) in
  let sig := Sample.sign Sample.agent_addr p in
  exists w',
    Executor.executeProposal Sample.keccak256 Sample.secp256k1_recover
      (Sample.world true) Sample.env p sig = Ok w' /\
    Executor.recover_signer Sample.keccak256 Sample.secp256k1_recover
      (Executor._getProposalHash Sample.keccak256 p) sig = Sample.agent_addr /\
    Executor.isNonceUsed Sample.keccak256 (Executor.executor w') 1 = true.
Proof.
  intros p sig.
  destruct (Executor.executeProposal Sample.keccak256 Sample.secp256k1_recover
              (Sample.world true) Sample.env p sig) as [w' | r] eqn:He.
  - exists w'. split; [reflexivity |].
    destruct (executed_implies_authorized Sample.keccak256 Sample.secp256k1_recover
                (Sample.world true) w' Sample.env p sig He) as (_ & _ & Hrec & _ & Hused).
    split; [exact Hrec | exact Hused].
  - exfalso. apply (f_equal Executor.succeeds) in He. vm_compute in He. discriminate.
Defined.

Lemma executed_implies_policy_allows_witness :
  let p := Sample.swap Sample.vault_a 100 1000 1 (Sample.now + 3600) in
  let sig := Sample.sign Sample.agent_addr p in
  exists w' pm,
    Executor.executeProposal Sample.keccak256 Sample.secp256k1_recover
      (Sample.world true) Sample.env p sig = Ok w' /\
    Executor.policyManagers (Sample.world true) !! Sample.pm_addr = Some pm /\
    PolicyManager.isActive (PolicyManager.getPolicy pm Sample.vault_a) = true.
Proof.
  intros p sig.
  destruct (Executor.executeProposal Sample.keccak256 Sample.secp256k1_recover
              (Sample.world true) Sample.env p sig) as [w' | r] eqn:He.
  - destruct (executed_implies_policy_allows Sample.keccak256 Sample.secp256k1_recover
                (Sample.world true) w' Sample.env p sig He) as (pm & Hpm & _ & Hact & _).
    exists w', pm. split; [reflexivity |]. split; [exact Hpm | exact Hact].
  - exfalso. apply (f_equal Executor.succeeds) in He. vm_compute in He. discriminate.
Defined.

Lemma executed_leaves_record_witness :
  let p := Sample.swap Sample.vault_a 100 1000 1 (Sample.now + 3600) in
  let sig := Sample.sign Sample.agent_addr p in
  exists w' vault',
    Executor.executeProposal Sample.keccak256 Sample.secp256k1_recover
      (Sample.world true) Sample.env p sig = Ok w' /\
    Executor.vaults w' !! Sample.vault_a = Some vault' /\
    Vault.lastActivity vault' = Sample.now.
Proof.
  intros p sig.
  destruct (Executor.executeProposal Sample.keccak256 Sample.secp256k1_recover
              (Sample.world true) Sample.env p sig) as [w' | r] eqn:He.
  - destruct (executed_leaves_record Sample.keccak256 Sample.secp256k1_recover
                (Sample.world true) w' Sample.env p sig He)
      as (log & log' & vault' & _ & _ & _ & _ & Hv & Hact & _).
    exists w', vault'. split; [reflexivity |]. split; [exact Hv | exact Hact].
  - exfalso. apply (f_equal Executor.succeeds) in He. vm_compute in He. discriminate.
Defined.

Lemma executed_implies_wiring_witness :
  let p := Sample.swap Sample.vault_a 100 1000 1 (Sample.now + 3600) in
  let sig := Sample.sign Sample.agent_addr p in
  exists w' vault,
    Executor.executeProposal Sample.keccak256 Sample.secp256k1_recover
      (Sample.world true) Sample.env p sig = Ok w' /\
    Executor.vaults (Sample.world true) !! Sample.vault_a = Some vault /\
    mapping_get false (Vault.authorizedExecutors vault) Sample.executor_addr = true.
Proof.
  intros p sig.
  destruct (Executor.executeProposal Sample.keccak256 Sample.secp256k1_recover
              (Sample.world true) Sample.env p sig) as [w' | r] eqn:He.
  - destruct (executed_implies_wiring Sample.keccak256 Sample.secp256k1_recover
                (Sample.world true) w' Sample.env p sig He)
      as (pm & vault & log & _ & Hv & _ & _ & Hauth & _).
    exists w', vault. split; [reflexivity |]. split; [exact Hv | exact Hauth].
  - exfalso. apply (f_equal Executor.succeeds) in He. vm_compute in He. discriminate.
Defined.

Lemma bad_signature_rejected_witness :
  let p := Sample.swap Sample.vault_a 100 1000 1 (Sample.now + 3600) in
  Executor.executeProposal Sample.keccak256 Sample.secp256k1_recover
    (Sample.world true) Sample.env p (zeros 32)
  = Rev (Error "Executor: Invalid signature length") /\
  Executor.executeProposal Sample.keccak256 Sample.secp256k1_recover
    (Sample.world true) Sample.env p (Sample.sign Sample.relayer_addr p)
  = Rev (Error "Executor: Invalid signature").
Proof.
  intros p.
  assert (Hd : Executor.validDeadline (Executor.block_timestamp Sample.env) (pf_deadline p)
               = Ok tt) by (vm_compute; reflexivity).
  split.
  - apply (proj1 (bad_signature_rejected Sample.keccak256 Sample.secp256k1_recover
                    (Sample.world true) Sample.env p (zeros 32) Hd)).
    vm_compute. discriminate.
  - apply (proj2 (bad_signature_rejected Sample.keccak256 Sample.secp256k1_recover
                    (Sample.world true) Sample.env p (Sample.sign Sample.relayer_addr p) Hd)).
    + vm_compute. reflexivity.
    + vm_compute. discriminate.
Defined.

Lemma non_owner_cannot_configure_witness :
  Executor.agentSigner
    (Executor.executor
       (Executor.step Sample.keccak256 Sample.secp256k1_recover (Sample.world true)
          (Sample.env, Executor.EmergencyPause)))
  = Sample.agent_addr.
Proof.
  assert (Hne : Executor.msg_sender Sample.env
                <> Executor.owner (Executor.executor (Sample.world true)))
    by (vm_compute; discriminate).
  exact (proj1 (proj2 (non_owner_cannot_configure Sample.keccak256 Sample.secp256k1_recover
                         (Sample.world true) Sample.env Executor.EmergencyPause Hne))).
Defined.


(** ** PolicyManager: setting, deactivating and checking policies *)

(** X16. [setPolicy] succeeds exactly when the caller is the owner, the three
    percentages are at most 100, the vault is not the zero address and the
    venue list is non-empty and free of zero addresses; it then stores the
    given values, active, with the venue list in the given order, stamps the
    update time and keeps an earlier positive creation time. *)
Theorem setPolicy_succeeds_iff (st st' : PolicyManager.State)
    (sender now vault rt mtp et : Z) (dex : list Z) :
  PolicyManager.setPolicy st sender now vault rt mtp et dex = Ok st' <->
  sender = PolicyManager.owner st /\
  rt <= 100 /\ mtp <= 100 /\ et <= 100 /\ vault <> 0 /\ dex <> [] /\
  Forall (fun d => d <> 0) dex /\
  st' = {| PolicyManager.owner := PolicyManager.owner st;
           PolicyManager.vaultPolicies :=
             <[vault :=
                 {| PolicyManager.riskTolerance := rt;
                    PolicyManager.maxTradePercent := mtp;
                    PolicyManager.emergencyThreshold := et;
                    PolicyManager.allowedDex := dex;
                    PolicyManager.isActive := true;
                    PolicyManager.createdAt :=
                      if PolicyManager.createdAt (PolicyManager.policy_of st vault) >? 0
                      then PolicyManager.createdAt (PolicyManager.policy_of st vault)
                      else now;
                    PolicyManager.updatedAt := now |}]>
               (PolicyManager.vaultPolicies st);
           PolicyManager.authorizedValidators := PolicyManager.authorizedValidators st |}.
Proof.
  split; [apply setPolicy_Ok |].
  intros (Hs & Hrt & Hmtp & Het & Hv & Hdex & Hall & ->).
  unfold PolicyManager.setPolicy, PolicyManager.onlyOwner,
    PolicyManager.MAX_RISK_TOLERANCE, PolicyManager.MAX_TRADE_PERCENT,
    PolicyManager.MAX_EMERGENCY_THRESHOLD.
  destruct (Z.eqb_spec sender (PolicyManager.owner st)); [| contradiction]. simpl.
  destruct (Z.leb_spec rt 100); [| lia]. simpl.
  destruct (Z.leb_spec mtp 100); [| lia]. simpl.
  destruct (Z.leb_spec et 100); [| lia]. simpl.
  destruct (Z.eqb_spec vault 0); [contradiction |]. simpl.
  destruct dex as [| d rest]; [contradiction |].
  rewrite push_allowedDex_nonzero by exact Hall. reflexivity.
Qed.

Lemma deactivatePolicy_Ok (st st' : PolicyManager.State) (sender now vault : Z) :
  PolicyManager.deactivatePolicy st sender now vault = Ok st' ->
  sender = PolicyManager.owner st /\
  0 < PolicyManager.createdAt (PolicyManager.policy_of st vault) /\
  st' = {| PolicyManager.owner := PolicyManager.owner st;
           PolicyManager.vaultPolicies :=
             <[vault :=
                 {| PolicyManager.riskTolerance :=
                      PolicyManager.riskTolerance (PolicyManager.policy_of st vault);
                    PolicyManager.maxTradePercent :=
                      PolicyManager.maxTradePercent (PolicyManager.policy_of st vault);
                    PolicyManager.emergencyThreshold :=
                      PolicyManager.emergencyThreshold (PolicyManager.policy_of st vault);
                    PolicyManager.allowedDex :=
                      PolicyManager.allowedDex (PolicyManager.policy_of st vault);
                    PolicyManager.isActive := false;
                    PolicyManager.createdAt :=
                      PolicyManager.createdAt (PolicyManager.policy_of st vault);
                    PolicyManager.updatedAt := now |}]>
               (PolicyManager.vaultPolicies st);
           PolicyManager.authorizedValidators := PolicyManager.authorizedValidators st |}.
Proof.
  unfold PolicyManager.deactivatePolicy, PolicyManager.onlyOwner. intros H.
  bind_inv H. apply require_Ok, Z.eqb_eq in Hstep.
  bind_inv H. apply require_Ok in Hstep0. rewrite Z.gtb_ltb in Hstep0.
  apply Z.ltb_lt in Hstep0.
  inversion H; subst st'. repeat split; assumption.
Qed.

(** X17. After [deactivatePolicy] for a vault, every [validateAction] for that
    vault by an authorized validator answers [(false, "Policy is inactive")],
    whatever the action type and however malformed the parameters, and
    [hasActivePolicy] is false; a later [setPolicy] makes the policy active
    again and keeps its original creation time. *)
Theorem deactivated_policy_fails_closed (st st' : PolicyManager.State)
    (sender now vault : Z) :
  PolicyManager.deactivatePolicy st sender now vault = Ok st' ->
  PolicyManager.hasActivePolicy st' vault = false /\
  (forall validator actionType params,
     PolicyManager.onlyAuthorizedValidator st' validator = Ok tt ->
     PolicyManager.validateAction st' validator vault actionType params
     = Ok (false, "PolicyManager: Policy is inactive")) /\
  (forall st'' now' rt mtp et dex,
     PolicyManager.setPolicy st' sender now' vault rt mtp et dex = Ok st'' ->
     PolicyManager.hasActivePolicy st'' vault = true /\
     PolicyManager.createdAt (PolicyManager.getPolicy st'' vault)
     = PolicyManager.createdAt (PolicyManager.getPolicy st vault)).
Proof.
  intros H. apply deactivatePolicy_Ok in H as (Hs & Hc & ->).
  split; [| split].
  - unfold PolicyManager.hasActivePolicy. rewrite policy_of_insert.
    destruct (decide (vault = vault)); [| contradiction]. simpl.
    apply andb_false_r.
  - intros validator actionType params Hauth.
    unfold PolicyManager.validateAction. rewrite Hauth. simpl.
    rewrite policy_of_insert. destruct (decide (vault = vault)); [| contradiction]. simpl.
    destruct (Z.eqb_spec (PolicyManager.createdAt (PolicyManager.policy_of st vault)) 0);
      [lia | reflexivity].
  - intros st'' now' rt mtp et dex H2.
    apply setPolicy_Ok in H2 as (_ & _ & _ & _ & _ & _ & _ & ->).
    unfold PolicyManager.hasActivePolicy, PolicyManager.getPolicy.
    rewrite !policy_of_insert. destruct (decide (vault = vault)); [| contradiction]. simpl.
    assert (Hpos : (PolicyManager.createdAt (PolicyManager.policy_of st vault) >? 0) = true)
      by (rewrite Z.gtb_ltb; apply Z.ltb_lt; exact Hc).
    rewrite Hpos. cbv iota. rewrite Hpos. split; reflexivity.
Qed.

Lemma deactivated_policy_fails_closed_witness :
  let st' := transact Sample.pm
               (PolicyManager.deactivatePolicy Sample.pm Sample.owner_addr 1700000000
                  Sample.vault_a) in
  PolicyManager.validateAction st' Sample.executor_addr Sample.vault_a 0 []
  = Ok (false, "PolicyManager: Policy is inactive").
Proof.
  intros st'.
  assert (H : PolicyManager.deactivatePolicy Sample.pm Sample.owner_addr 1700000000
                Sample.vault_a = Ok st') by (vm_compute; reflexivity).
  apply (proj1 (proj2 (deactivated_policy_fails_closed Sample.pm st' Sample.owner_addr
                         1700000000 Sample.vault_a H))).
  vm_compute. reflexivity.
Defined.

(** X18. No policy, no action: for a vault that never had a policy set (or
    whose creation time is 0), [validateAction] by an authorized validator
    answers [(false, "No policy found for vault")] for every action type and
    every parameter bytes, without decoding them. *)
Theorem missing_policy_fails_closed (st : PolicyManager.State)
    (validator vault actionType : Z) (params : list byte) :
  PolicyManager.onlyAuthorizedValidator st validator = Ok tt ->
  PolicyManager.vaultPolicies st !! vault = None
  \/ PolicyManager.createdAt (PolicyManager.policy_of st vault) = 0 ->
  PolicyManager.validateAction st validator vault actionType params
  = Ok (false, "PolicyManager: No policy found for vault").
Proof.
  intros Hauth Hmissing.
  assert (Hc : PolicyManager.createdAt (PolicyManager.policy_of st vault) = 0).
  { destruct Hmissing as [Hnone | Hz]; [| exact Hz].
    unfold PolicyManager.policy_of, mapping_get. rewrite Hnone. reflexivity. }
  unfold PolicyManager.validateAction. rewrite Hauth. simpl. rewrite Hc. reflexivity.
Qed.

Lemma missing_policy_fails_closed_witness :
  PolicyManager.validateAction Sample.pm Sample.executor_addr 999 0 []
  = Ok (false, "PolicyManager: No policy found for vault").
Proof.
  apply missing_policy_fails_closed.
  - reflexivity.
  - left. vm_compute. reflexivity.
Defined.

(** X19. The venue check comes before the size check: a Swap on an active
    policy whose decoded venue is not in the policy's list is answered
    [(false, "DEX not allowed by policy")] whatever the amount and the
    balance, a zero balance included. *)
Theorem unlisted_venue_rejected (st : PolicyManager.State) (validator vault : Z)
    (params : list byte) (dex amount balance : Z) :
  let policy := PolicyManager.policy_of st vault in
  PolicyManager.onlyAuthorizedValidator st validator = Ok tt ->
  PolicyManager.createdAt policy <> 0 ->
  PolicyManager.isActive policy = true ->
  abi_decode_address_uint256_uint256 params = Ok (dex, amount, balance) ->
  dex ∉ PolicyManager.allowedDex policy ->
  PolicyManager.validateAction st validator vault 0 params
  = Ok (false, "PolicyManager: DEX not allowed by policy").
Proof.
  intros policy Hauth Hc Ha Hdec Hnot.
  rewrite validateAction_active by assumption. simpl. fold policy.
  unfold PolicyManager._validateSwapAction. rewrite Hdec. simpl.
  destruct (PolicyManager.dex_allowed dex (PolicyManager.allowedDex policy)) eqn:Hdex;
    [| reflexivity].
  apply dex_allowed_In in Hdex. contradiction.
Qed.

Lemma unlisted_venue_rejected_witness :
  PolicyManager.validateAction Sample.pm Sample.executor_addr Sample.vault_a 0
    (abi_encode_address_uint256_uint256 99 100 0)
  = Ok (false, "PolicyManager: DEX not allowed by policy").
Proof.
  apply (unlisted_venue_rejected Sample.pm Sample.executor_addr Sample.vault_a
           (abi_encode_address_uint256_uint256 99 100 0) 99 100 0).
  - reflexivity.
  - vm_compute. discriminate.
  - reflexivity.
  - vm_compute. reflexivity.
  - vm_compute. intros H. apply list_elem_of_singleton in H. discriminate.
Defined.



(** *** The cap as a truncated percentage *)

Lemma div_le_cap (amount balance cap : Z) :
  0 < balance ->
  (amount * 100 / balance <= cap <-> amount * 100 < (cap + 1) * balance).
Proof.
  intros Hb. split.
  - intros Hq.
    pose proof (Z.mul_succ_div_gt (amount * 100) balance Hb) as Hgt. nia.
  - intros Hlt.
    assert (amount * 100 / balance < cap + 1); [| lia].
    apply Z.div_lt_upper_bound; lia.
Qed.

Lemma _validateLendingAction_spec (vault : Z) (params : list byte)
    (policy : PolicyManager.Policy) (amount balance : Z) :
  abi_decode_uint256_uint256 params = Ok (amount, balance) ->
  amount * 100 <= uint256_max -> balance <> 0 ->
  PolicyManager._validateLendingAction vault params policy =
    (if amount * 100 / balance <=? PolicyManager.maxTradePercent policy then Ok (true, "")
     else Ok (false, "PolicyManager: Lending amount exceeds maximum allowed")) /\
  PolicyManager._validateBorrowingAction vault params policy =
    (if amount * 100 / balance <=? PolicyManager.maxTradePercent policy then Ok (true, "")
     else Ok (false, "PolicyManager: Borrowing amount exceeds maximum allowed")).
Proof.
  intros Hdec Hmul Hb.
  unfold PolicyManager._validateLendingAction, PolicyManager._validateBorrowingAction.
  rewrite Hdec. simpl. rewrite checked_mul_Ok by exact Hmul. simpl.
  unfold checked_div. destruct (Z.eqb_spec balance 0); [contradiction |]. simpl.
  rewrite Z.gtb_ltb.
  destruct (Z.ltb_spec (PolicyManager.maxTradePercent policy) (amount * 100 / balance));
    destruct (Z.leb_spec (amount * 100 / balance) (PolicyManager.maxTradePercent policy));
    try lia; split; reflexivity.
Qed.

(** X21. On an active policy with cap [m], a Lend or Borrow of [amount] out
    of a stated balance [balance > 0] is accepted exactly when
    [amount * 100 < (m + 1) * balance], and a Swap through a listed venue
    likewise: the cap admits everything below [m + 1] percent, not just up to
    [m] percent. *)
Theorem cap_admits_below_next_percent (st : PolicyManager.State) (validator vault : Z)
    (params : list byte) (amount balance : Z) :
  let policy := PolicyManager.policy_of st vault in
  let m := PolicyManager.maxTradePercent policy in
  PolicyManager.onlyAuthorizedValidator st validator = Ok tt ->
  PolicyManager.createdAt policy <> 0 ->
  PolicyManager.isActive policy = true ->
  0 < balance -> amount * 100 <= uint256_max ->
  (abi_decode_uint256_uint256 params = Ok (amount, balance) ->
   (PolicyManager.validateAction st validator vault 1 params = Ok (true, "")
    <-> amount * 100 < (m + 1) * balance) /\
   (PolicyManager.validateAction st validator vault 2 params = Ok (true, "")
    <-> amount * 100 < (m + 1) * balance)) /\
  (forall dex,
     abi_decode_address_uint256_uint256 params = Ok (dex, amount, balance) ->
     dex ∈ PolicyManager.allowedDex policy ->
     (PolicyManager.validateAction st validator vault 0 params = Ok (true, "")
      <-> amount * 100 < (m + 1) * balance)).
Proof.
  intros policy m Hauth Hc Ha Hb Hmul.
  pose proof (div_le_cap amount balance m Hb) as Hdiv.
  split.
  - intros Hdec.
    rewrite !validateAction_active by assumption. simpl. fold policy.
    destruct (_validateLendingAction_spec vault params policy amount balance Hdec Hmul)
      as [Hl Hbw]; [lia |].
    rewrite Hl, Hbw. fold m.
    destruct (Z.leb_spec (amount * 100 / balance) m) as [Hle | Hgt].
    + split; (split; [intros _; apply Hdiv; exact Hle | reflexivity]).
    + split; (split; [discriminate | intros Hlt; apply Hdiv in Hlt; lia]).
  - intros dex Hdec Hdex.
    rewrite validateAction_active by assumption. simpl. fold policy.
    rewrite (_validateSwapAction_spec vault params policy dex amount balance)
      by (try apply dex_allowed_In; assumption || lia).
    fold m.
    destruct (Z.leb_spec (amount * 100 / balance) m) as [Hle | Hgt].
    + split; [intros _; apply Hdiv; exact Hle | reflexivity].
    + split; [discriminate | intros Hlt; apply Hdiv in Hlt; lia].
Qed.

Lemma cap_admits_below_next_percent_witness :
  PolicyManager.validateAction Sample.pm Sample.executor_addr Sample.vault_a 1
    (abi_encode_uint256_uint256 109 1000) = Ok (true, "").
Proof.
  assert (Hb : 0 < 1000) by lia.
  assert (Hmul : 109 * 100 <= uint256_max) by (vm_compute; discriminate).
  assert (Hdec : abi_decode_uint256_uint256 (abi_encode_uint256_uint256 109 1000)
                 = Ok (109, 1000)) by (vm_compute; reflexivity).
  assert (Hauth : PolicyManager.onlyAuthorizedValidator Sample.pm Sample.executor_addr
                  = Ok tt) by reflexivity.
  assert (Hc : PolicyManager.createdAt (PolicyManager.policy_of Sample.pm Sample.vault_a)
               <> 0) by (vm_compute; discriminate).
  assert (Ha : PolicyManager.isActive (PolicyManager.policy_of Sample.pm Sample.vault_a)
               = true) by reflexivity.
  apply (proj1 (proj1 (cap_admits_below_next_percent Sample.pm Sample.executor_addr
                         Sample.vault_a (abi_encode_uint256_uint256 109 1000) 109 1000
                         Hauth Hc Ha Hb Hmul) Hdec)).
  vm_compute. reflexivity.
Defined.

(** ** Signer: nonces and deadlines *)

Lemma getCurrentNonce_getNextNonce (tracker : gmap string Z) (v v' : string) :
  Signer.getCurrentNonce (Signer.getNextNonce tracker v).2 v' =
    if decide (v = v') then Signer.getCurrentNonce tracker v + 1
    else Signer.getCurrentNonce tracker v'.
Proof.
  unfold Signer.getNextNonce, Signer.getCurrentNonce. simpl.
  rewrite lookup_insert. destruct (decide (v = v')); reflexivity.
Qed.

Lemma getCurrentNonce_insert (tracker : gmap string Z) (v v' : string) (x : Z) :
  Signer.getCurrentNonce (<[v := x]> tracker) v' =
    if decide (v = v') then x else Signer.getCurrentNonce tracker v'.
Proof.
  unfold Signer.getCurrentNonce. rewrite lookup_insert.
  destruct (decide (v = v')); reflexivity.
Qed.

Lemma createProposals_bounds (reqs : list Signer.request) (tracker : gmap string Z) :
  (forall v, Signer.getCurrentNonce tracker v
             <= Signer.getCurrentNonce (Signer.createProposals tracker reqs).2 v) /\
  (forall p, p ∈ (Signer.createProposals tracker reqs).1 ->
             Signer.getCurrentNonce tracker (Signer.vault p) < Signer.nonce p).
Proof.
  revert tracker. induction reqs as [| r rest IH]; intros tracker.
  - simpl. split; [intros v; lia |]. intros p Hp. apply elem_of_nil in Hp. contradiction.
  - cbn [Signer.createProposals]. unfold Signer.createProposal.
    destruct (Signer.getNextNonce tracker (Signer.req_vault r)) as [n t1] eqn:Hn.
    assert (Ht1 : t1 = (Signer.getNextNonce tracker (Signer.req_vault r)).2)
      by (rewrite Hn; reflexivity).
    assert (Hn1 : n = Signer.getCurrentNonce tracker (Signer.req_vault r) + 1)
      by (unfold Signer.getNextNonce in Hn; inversion Hn; reflexivity).
    destruct (Signer.createProposals t1 rest) as [ps t2] eqn:Hrest.
    destruct (IH t1) as [Hmono Hnew]. rewrite Hrest in Hmono, Hnew. simpl in *.
    assert (Hstep : forall v, Signer.getCurrentNonce tracker v
                              <= Signer.getCurrentNonce t1 v).
    { intros v. rewrite Ht1, getCurrentNonce_insert.
      destruct (decide (Signer.req_vault r = v)) as [<- | _];
        unfold Signer.getCurrentNonce; lia. }
    split.
    + intros v. specialize (Hstep v). specialize (Hmono v). lia.
    + intros p Hp. apply elem_of_cons in Hp as [-> | Hp].
      * simpl. lia.
      * specialize (Hnew p Hp). specialize (Hstep (Signer.vault p)). lia.
Qed.

(** X22. The Signer's nonces are strictly increasing per vault: in any run of
    [createProposal] calls, of two proposals created for the same vault the
    later one carries the greater nonce, and every nonce issued for a vault
    is greater than the vault's counter at the start (so a fresh vault starts
    at 1). *)
Theorem signer_nonces_increase_per_vault (reqs : list Signer.request)
    (tracker : gmap string Z) (i j : nat) (p q : Signer.Proposal) :
  let created := (Signer.createProposals tracker reqs).1 in
  created !! i = Some p -> created !! j = Some q ->
  (i < j)%nat -> Signer.vault p = Signer.vault q ->
  Signer.getCurrentNonce tracker (Signer.vault p) < Signer.nonce p < Signer.nonce q.
Proof.
  revert tracker i j. induction reqs as [| r rest IH]; intros tracker i j created Hi Hj Hlt Hv.
  - unfold created in Hi. simpl in Hi. discriminate.
  - assert (Hp : Signer.getCurrentNonce tracker (Signer.vault p) < Signer.nonce p).
    { apply (createProposals_bounds (r :: rest) tracker).
      apply list_elem_of_lookup. exists i. exact Hi. }
    split; [exact Hp |].
    unfold created in *. cbn [Signer.createProposals] in *.
    unfold Signer.createProposal in *.
    destruct (Signer.getNextNonce tracker (Signer.req_vault r)) as [n t1] eqn:Hn.
    assert (Ht1 : t1 = (Signer.getNextNonce tracker (Signer.req_vault r)).2)
      by (rewrite Hn; reflexivity).
    assert (Hn1 : n = Signer.getCurrentNonce tracker (Signer.req_vault r) + 1)
      by (unfold Signer.getNextNonce in Hn; inversion Hn; reflexivity).
    destruct (Signer.createProposals t1 rest) as [ps t2] eqn:Hrest. simpl in *.
    destruct j as [| j']; [lia |]. simpl in Hj.
    destruct i as [| i'].
    + simpl in Hi. inversion Hi; subst p. simpl in *.
      assert (Hq : Signer.getCurrentNonce t1 (Signer.vault q) < Signer.nonce q).
      { pose proof (createProposals_bounds rest t1) as [_ Hnew].
        rewrite Hrest in Hnew. apply Hnew. apply list_elem_of_lookup. exists j'. exact Hj. }
      rewrite Ht1, getCurrentNonce_insert in Hq.
      destruct (decide (Signer.req_vault r = Signer.vault q)); [| contradiction].
      unfold Signer.getCurrentNonce in *. lia.
    + simpl in Hi.
      specialize (IH t1 i' j'). rewrite Hrest in IH. simpl in IH.
      apply IH; [exact Hi | exact Hj | lia | exact Hv].
Qed.

Lemma signer_nonces_increase_per_vault_witness :
  let r (v : string) := {| Signer.req_now_ms := 1700000000000; Signer.req_vault := v;
                          Signer.req_actionType := 0; Signer.req_params := "0x00";
                          Signer.req_ipfsHash := "0x07";
                          Signer.req_deadlineOffset := 3600 |} in
  List.map Signer.nonce (Signer.createProposals ∅ [r "0xA"; r "0xB"; r "0xA"]).1 = [1; 1; 2]
  /\ 0 < 1 < 2.
Proof.
  intros r. split; [vm_compute; reflexivity |].
  refine (signer_nonces_increase_per_vault [r "0xA"; r "0xB"; r "0xA"] ∅ 0 2
            {| Signer.vault := "0xA"; Signer.actionType := 0; Signer.params := "0x00";
               Signer.ipfsHash := "0x07"; Signer.nonce := 1;
               Signer.deadline := 1700003600 |}
            {| Signer.vault := "0xA"; Signer.actionType := 0; Signer.params := "0x00";
               Signer.ipfsHash := "0x07"; Signer.nonce := 2;
               Signer.deadline := 1700003600 |} _ _ _ _).
  - vm_compute. reflexivity.
  - vm_compute. reflexivity.
  - lia.
  - reflexivity.
Defined.

(** X23. From creation to execution: a proposal created at Signer time
    [now_ms] with offset [deadlineOffset] passes the Executor's deadline check
    at block time [t] exactly when
    [created + deadlineOffset - 3600 <= t <= created + deadlineOffset - 300],
    where [created = floor(now_ms / 1000)]. With the default offset of one
    hour that is [created <= t <= created + 3300]: a block clock behind the
    Signer's, or more than 55 minutes ahead, rejects it. *)
Theorem created_proposal_execution_window (tracker : gmap string Z) (now_ms : Z)
    (vault : string) (actionType : Z) (params ipfsHash : string) (deadlineOffset t : Z) :
  let p := (Signer.createProposal tracker now_ms vault actionType params ipfsHash
              deadlineOffset).1 in
  let created := now_ms / 1000 in
  t + 3600 <= uint256_max ->
  (Executor.validDeadline t (Signer.deadline p) = Ok tt
   <-> created + deadlineOffset - 3600 <= t <= created + deadlineOffset - 300) /\
  (deadlineOffset = Signer.default_deadlineOffset ->
   (Executor.validDeadline t (Signer.deadline p) = Ok tt <-> created <= t <= created + 3300)).
Proof.
  intros p created Hmax.
  assert (Hd : Signer.deadline p = created + deadlineOffset) by reflexivity.
  assert (Hiff : Executor.validDeadline t (Signer.deadline p) = Ok tt
                 <-> created + deadlineOffset - 3600 <= t <= created + deadlineOffset - 300).
  { rewrite Hd. split.
    - intros H. apply validDeadline_Ok in H. lia.
    - intros H. rewrite validDeadline_spec by exact Hmax.
      destruct (Z.leb_spec (created + deadlineOffset) t); [lia |].
      destruct (Z.ltb_spec (t + 3600) (created + deadlineOffset)); [lia |].
      destruct (Z.ltb_spec (created + deadlineOffset) (t + 300)); [lia | reflexivity]. }
  split; [exact Hiff |].
  intros ->. unfold Signer.default_deadlineOffset in Hiff. rewrite Hiff. lia.
Qed.

Lemma created_proposal_execution_window_witness :
  let p := (Signer.createProposal ∅ 1700000000000 "0xA" 0 "0x00" "0x07" 3600).1 in
  Executor.validDeadline 1700003300 (Signer.deadline p) = Ok tt.
Proof.
  intros p.
  assert (Hmax : 1700003300 + 3600 <= uint256_max) by (vm_compute; discriminate).
  apply (proj2 (created_proposal_execution_window ∅ 1700000000000 "0xA" 0 "0x00" "0x07"
                  3600 1700003300 Hmax) eq_refl).
  vm_compute. split; discriminate.
Defined.

(** X24. [validateProposal] answers [true] exactly for a proposal whose vault
    string is non-empty and an address, whose action type is between 0 and 5,
    whose parameters are non-empty, whose IPFS hash string has 66 characters,
    whose nonce is not negative and whose deadline lies after the current
    second and at most 24 hours ahead. *)
Theorem validateProposal_true_iff (isAddress : string -> bool) (now_ms : Z)
    (proposal : Signer.Proposal) :
  Signer.validateProposal isAddress now_ms proposal = true <->
  Signer.vault proposal <> "" /\ isAddress (Signer.vault proposal) = true /\
  0 <= Signer.actionType proposal <= 5 /\
  Signer.params proposal <> "" /\
  String.length (Signer.ipfsHash proposal) = 66%nat /\
  0 <= Signer.nonce proposal /\
  now_ms / 1000 < Signer.deadline proposal <= now_ms / 1000 + 86400.
Proof.
  unfold Signer.validateProposal.
  destruct (String.eqb_spec (Signer.vault proposal) "") as [Hv | Hv]; simpl;
    [split; [discriminate | intros (H & _); contradiction] |].
  destruct (isAddress (Signer.vault proposal)) eqn:Haddr; simpl;
    [| split; [discriminate | intros (_ & H & _); discriminate]].
  destruct (Z.ltb_spec (Signer.actionType proposal) 0); simpl;
    [split; [discriminate | intros (_ & _ & H' & _); lia] |].
  rewrite Z.gtb_ltb.
  destruct (Z.ltb_spec 5 (Signer.actionType proposal)); simpl;
    [split; [discriminate | intros (_ & _ & H' & _); lia] |].
  destruct (String.eqb_spec (Signer.params proposal) "") as [Hp | Hp]; simpl;
    [split; [discriminate | intros (_ & _ & _ & H' & _); contradiction] |].
  destruct (Nat.eqb_spec (String.length (Signer.params proposal)) 0) as [Hl | Hl]; simpl.
  { exfalso. apply Hp. destruct (Signer.params proposal); [reflexivity | discriminate]. }
  destruct (String.eqb_spec (Signer.ipfsHash proposal) "") as [Hh | Hh]; simpl.
  { split; [discriminate |]. intros (_ & _ & _ & _ & H' & _). rewrite Hh in H'.
    discriminate. }
  destruct (Nat.eqb_spec (String.length (Signer.ipfsHash proposal)) 66) as [Hl66 | Hl66];
    simpl; [| split; [discriminate | intros (_ & _ & _ & _ & H' & _); contradiction]].
  destruct (Z.ltb_spec (Signer.nonce proposal) 0); simpl;
    [split; [discriminate | intros (_ & _ & _ & _ & _ & H' & _); lia] |].
  destruct (Z.leb_spec (Signer.deadline proposal) (now_ms / 1000)); simpl;
    [split; [discriminate | intros (_ & _ & _ & _ & _ & _ & H'); lia] |].
  rewrite Z.gtb_ltb.
  destruct (Z.ltb_spec (now_ms / 1000 + 24 * 60 * 60) (Signer.deadline proposal)); simpl;
    [split; [discriminate | intros (_ & _ & _ & _ & _ & _ & H'); lia] |].
  split; [intros _ | reflexivity].
  repeat split; try assumption; lia.
Qed.

(** ** Vault: revoking the Executor *)

Section Revocation.

Variable keccak256 : list byte -> Z.
Variable secp256k1_recover : Z -> Z -> Z -> Z -> option Z.

(** X25. The vault owner can cut the Executor off: after
    [removeAuthorizedExecutor] for the Executor's address, [executeAction]
    from it reverts with "Unauthorized executor", and no proposal for that
    vault is executed, however well signed and policy-conforming, until the
    authorization is given back. *)
Theorem revoked_executor_cannot_act (vault vault' : Vault.State) (sender : Z)
    (w : Executor.World) (env : Executor.Env) (p : ProposalFields) (signature : list byte) :
  Vault.removeAuthorizedExecutor vault sender (Executor.self w) = Ok vault' ->
  Executor.vaults w !! pf_vault p = Some vault' ->
  (forall now actionType params,
     Vault.executeAction vault' (Executor.self w) now actionType params
     = Rev (Error "Vault: Unauthorized executor")) /\
  Executor.succeeds (Executor.executeProposal keccak256 secp256k1_recover w env p signature)
  = false.
Proof.
  intros Hrm Hv.
  assert (Hno : mapping_get false (Vault.authorizedExecutors vault') (Executor.self w)
                = false).
  { unfold Vault.removeAuthorizedExecutor in Hrm. bind_inv Hrm.
    inversion Hrm; subst vault'. simpl. rewrite mapping_get_insert.
    destruct (decide _); [reflexivity | contradiction]. }
  split.
  - intros now actionType params.
    unfold Vault.executeAction, Vault.onlyAuthorizedExecutor. rewrite Hno. reflexivity.
  - destruct (Executor.executeProposal keccak256 secp256k1_recover w env p signature)
      as [w' | r] eqn:He; [| reflexivity].
    apply executeProposal_Ok in He as (w1 & H1 & _ & H3).
    apply verify_and_mark_Ok in H1 as (_ & _ & _ & _ & ->).
    apply perform_effect_Ok in H3 as (v0 & v0' & _ & _ & Hv0 & Hva & _).
    simpl in Hv0, Hva. rewrite Hv in Hv0. inversion Hv0; subst v0.
    unfold Vault.executeAction, Vault.onlyAuthorizedExecutor in Hva.
    rewrite Hno in Hva. discriminate.
Qed.

End Revocation.

Lemma revoked_executor_cannot_act_witness :
  let p := Sample.swap Sample.vault_b 100 1000 1 (Sample.now + 3600) in
  Executor.succeeds
    (Executor.executeProposal Sample.keccak256 Sample.secp256k1_recover
       (Sample.world false) Sample.env p (Sample.sign Sample.agent_addr p)) = false.
Proof.
  intros p.
  assert (Hrm : Vault.removeAuthorizedExecutor (Sample.vault true) Sample.owner_addr
                  (Executor.self (Sample.world false)) = Ok (Sample.vault false))
    by (vm_compute; reflexivity).
  assert (Hv : Executor.vaults (Sample.world false) !! pf_vault p
               = Some (Sample.vault false)) by (vm_compute; reflexivity).
  exact (proj2 (revoked_executor_cannot_act Sample.keccak256 Sample.secp256k1_recover
                  (Sample.vault true) (Sample.vault false) Sample.owner_addr
                  (Sample.world false) Sample.env p (Sample.sign Sample.agent_addr p)
                  Hrm Hv)).
Defined.

Lemma paused_rejects_recovered_signer_witness :
  let p := Sample.swap Sample.vault_a 100 1000 1 (Sample.now + 3600) in
  let paused := Executor.step Sample.keccak256 Sample.secp256k1_recover
                  (Sample.world true) (Sample.owner_env, Executor.EmergencyPause) in
  Executor.executeProposal Sample.keccak256 Sample.secp256k1_recover paused Sample.env p
    (Sample.sign Sample.agent_addr p)
  = Rev (Error "Executor: Invalid signature").
Proof.
  intros p paused.
  apply (paused_rejects_recovered_signer Sample.keccak256 Sample.secp256k1_recover paused
           Sample.env p (Sample.sign Sample.agent_addr p)).
  - vm_compute. reflexivity.
  - vm_compute. reflexivity.
  - vm_compute. reflexivity.
  - vm_compute. discriminate.
Defined.

(** ** Re-keying *)

Section Rekeying.

Variable keccak256 : list byte -> Z.
Variable secp256k1_recover : Z -> Z -> Z -> Z -> option Z.

(** X3. After a successful [emergencyUnpause(newSigner)] (and likewise
    [updateAgentSigner(newSigner)]) the registered signer is [newSigner],
    which is not zero; from then on a proposal is executed only if its
    signature recovers to [newSigner], and one inside the deadline window
    whose 65-byte signature recovers to anybody else, the previous signer
    included, is rejected with "Invalid signature". *)
Theorem rekeyed_executor_accepts_only_new_signer (w w1 : Executor.World)
    (env : Executor.Env) (newSigner : Z) :
  Executor.emergencyUnpause w env newSigner = Ok w1
  \/ Executor.updateAgentSigner w env newSigner = Ok w1 ->
  newSigner <> 0 /\
  Executor.agentSigner (Executor.executor w1) = newSigner /\
  forall (env' : Executor.Env) (p : ProposalFields) (signature : list byte),
    (forall w2,
       Executor.executeProposal keccak256 secp256k1_recover w1 env' p signature = Ok w2 ->
       Executor.recover_signer keccak256 secp256k1_recover
         (Executor._getProposalHash keccak256 p) signature = newSigner) /\
    (Executor.validDeadline (Executor.block_timestamp env') (pf_deadline p) = Ok tt ->
     length signature = 65%nat ->
     Executor.recover_signer keccak256 secp256k1_recover
       (Executor._getProposalHash keccak256 p) signature <> newSigner ->
     Executor.executeProposal keccak256 secp256k1_recover w1 env' p signature
     = Rev (Error "Executor: Invalid signature")).
Proof.
  intros Hre.
  assert (Hkey : newSigner <> 0 /\ Executor.agentSigner (Executor.executor w1) = newSigner).
  { destruct Hre as [H | H];
      [unfold Executor.emergencyUnpause in H | unfold Executor.updateAgentSigner in H];
      do 2 bind_inv H;
      apply require_Ok, negb_true_iff, Z.eqb_neq in Hstep0;
      inversion H; subst w1; split; [exact Hstep0 | reflexivity | exact Hstep0 | reflexivity]. }
  destruct Hkey as [Hnz Hsigner].
  split; [exact Hnz |]. split; [exact Hsigner |].
  intros env' p signature. split.
  - intros w2 He.
    apply executeProposal_Ok in He as (w' & H1 & _).
    apply verify_and_mark_Ok in H1 as (_ & _ & Hrec & _). rewrite Hrec. exact Hsigner.
  - intros Hd Hlen Hrec.
    unfold Executor.executeProposal, Executor.verify_and_mark, Executor._verifySignature.
    rewrite Hd, Hlen, Hsigner. simpl.
    destruct (Z.eqb_spec
                (Executor.recover_signer keccak256 secp256k1_recover
                   (Executor._getProposalHash keccak256 p) signature) newSigner);
      [contradiction | reflexivity].
Qed.

End Rekeying.

Lemma rekeyed_executor_accepts_only_new_signer_witness :
  let p := Sample.swap Sample.vault_a 100 1000 1 (Sample.now + 3600) in
  let rekeyed := Executor.step Sample.keccak256 Sample.secp256k1_recover
                   (Sample.world true) (Sample.owner_env, Executor.EmergencyUnpause 11) in
  Executor.executeProposal Sample.keccak256 Sample.secp256k1_recover rekeyed Sample.env p
    (Sample.sign Sample.agent_addr p)
  = Rev (Error "Executor: Invalid signature").
Proof.
  intros p rekeyed.
  assert (Hre : Executor.emergencyUnpause (Sample.world true) Sample.owner_env 11
                = Ok rekeyed) by (vm_compute; reflexivity).
  destruct (rekeyed_executor_accepts_only_new_signer Sample.keccak256
              Sample.secp256k1_recover (Sample.world true) rekeyed Sample.owner_env 11
              (or_introl Hre)) as (_ & _ & Hall).
  apply (proj2 (Hall Sample.env p (Sample.sign Sample.agent_addr p))).
  - vm_compute. reflexivity.
  - vm_compute. reflexivity.
  - vm_compute. discriminate.
Defined.
